(** * Dojo relay: event store and credential-chain verifier

    A shallow embedding of the relay's credential subsystem
    ([relay/src/crypto.ts], [relay/src/database.ts], [relay/src/types.ts],
    the handlers of [relay/src/relay.ts] and the [CredentialVerifier]
    class), followed by the properties of the specification that were
    checked against it and by further properties of the code.

    Conventions of the embedding.
    - A JavaScript [number] that is known to be an integer is a [Z].  The
      result of [parseInt] is an [option Z] where [None] stands for [NaN];
      a [number | null] column or variable is an [option Z] where [None]
      stands for [null].  Numbers are exact integers: the rounding of
      doubles above 2^53 is not modelled.
    - A JavaScript string is a [string] (a sequence of bytes); [length] is
      the number of bytes, which agrees with JavaScript on ASCII text.
    - [string | undefined] is an [option string].
    - The three SQLite tables are the fields of [Db]: [events] is the list
      of rows in insertion order, [credentials] and [schemas] are finite
      maps keyed by their primary key.
    - What the program takes from its host (JSON, SHA-256, Schnorr, SQL
      [LIKE], the wall clock) is a parameter: the fields of [Runtime] and
      the [wall] argument of the queries. *)

From Stdlib Require Import ZArith String Ascii List Lia Bool.
From Stdlib Require DecimalString.
From stdpp Require Import base option gmap strings list.

Set Warnings "-register-all".

Open Scope string_scope.
Open Scope Z_scope.

(** ** JavaScript primitives used by the program *)

Module JS.

(** [NaN]-aware number, as returned by [parseInt]. *)
Definition num : Type := option Z.
Definition NaN : num := None.

Definition isWhiteSpace (a : ascii) : bool :=
  let n := nat_of_ascii a in
  ((n =? 9) || (n =? 10) || (n =? 11) || (n =? 12) || (n =? 13) || (n =? 32))%nat.

Fixpoint trimStart (s : string) : string :=
  match s with
  | String a s' => if isWhiteSpace a then trimStart s' else s
  | EmptyString => s
  end.

Definition digitValue (a : ascii) : option Z :=
  let n := Z.of_nat (nat_of_ascii a) in
  if (48 <=? n) && (n <=? 57) then Some (n - 48) else None.

Fixpoint parseDigits (acc : Z) (s : string) : Z :=
  match s with
  | String a s' =>
      match digitValue a with
      | Some d => parseDigits (10 * acc + d) s'
      | None => acc
      end
  | EmptyString => acc
  end.

(** [parseInt(s, 10)]: leading white space (the ASCII part of it), an
    optional sign, then the longest prefix of decimal digits; [NaN] when
    there is no digit. *)
Definition parseInt (s : string) : num :=
  let t := trimStart s in
  let '(sign, body) :=
    match t with
    | String "-" r => (-1, r)
    | String "+" r => (1, r)
    | _ => (1, t)
    end in
  match body with
  | String a _ =>
      match digitValue a with
      | Some _ => Some (sign * parseDigits 0 body)
      | None => NaN
      end
  | EmptyString => NaN
  end.

Definition isNaN (n : num) : bool :=
  match n with Some _ => false | None => true end.

(** [n || null] on a number: [0] and [NaN] are falsy. *)
Definition orNull (n : num) : option Z :=
  match n with
  | Some z => if z =? 0 then None else Some z
  | None => None
  end.

(** Relational operators; every comparison with [NaN] is false. *)
Definition gt (a b : num) : bool :=
  match a, b with Some x, Some y => y <? x | _, _ => false end.
Definition lt (a b : num) : bool :=
  match a, b with Some x, Some y => x <? y | _, _ => false end.
Definition le (a b : num) : bool :=
  match a, b with Some x, Some y => x <=? y | _, _ => false end.

(** [!s] for [s : string | undefined]: [undefined] and the empty string
    are falsy. *)
Definition falsy (s : option string) : bool :=
  match s with
  | None => true
  | Some EmptyString => true
  | Some _ => false
  end.

(** [s.split(sep)] for a one-character separator. *)
Fixpoint split_aux (sep : ascii) (cur : string) (s : string) : list string :=
  match s with
  | EmptyString => [String.rev cur]
  | String a s' =>
      if Ascii.eqb a sep then String.rev cur :: split_aux sep EmptyString s'
      else split_aux sep (String a cur) s'
  end.
Definition split (sep : ascii) (s : string) : list string :=
  split_aux sep EmptyString s.

(** [parts.join(sep)]. *)
Fixpoint join (sep : string) (parts : list string) : string :=
  match parts with
  | [] => EmptyString
  | [p] => p
  | p :: rest => p +:+ sep +:+ join sep rest
  end.

(** [xs.includes(x)] on an array of strings. *)
Definition includes (xs : list string) (x : string) : bool :=
  bool_decide (x ∈ xs).

(** JavaScript values, for the one function that inspects the dynamic
    type of its input ([validateEvent]).  A missing property reads as
    [JUndefined]; the numbers are the integers. *)
Inductive value : Type :=
| JUndefined
| JNull
| JBool (b : bool)
| JNumber (n : Z)
| JString (s : string)
| JArray (items : list value)
| JObject (fields : list (string * value)).

Definition truthy (v : value) : bool :=
  match v with
  | JUndefined | JNull => false
  | JBool b => b
  | JNumber n => negb (n =? 0)
  | JString s => negb (bool_decide (s = EmptyString))
  | JArray _ | JObject _ => true
  end.

Definition isArray (v : value) : bool :=
  match v with JArray _ => true | _ => false end.

End JS.

(** ** Types ([types.ts]) *)

Module NostrEvent.
Record t : Type := mk {
  id : string;
  pubkey : string;
  created_at : Z;
  kind : Z;
  tags : list (list string);
  content : string;
  sig : string;
}.
End NostrEvent.

Module CredentialClass.
Record expiry_t : Type := mkExpiry {
  max_days : option Z;
  renewable : bool;
}.
(** The optional [constraints] mapping is opaque to the program and is
    left out. *)
Record t : Type := mk {
  name : string;
  description : option string;
  scope : list string;
  issued_by : list string;
  expiry : expiry_t;
  cascade_revoke : bool;
}.
End CredentialClass.

Module CredentialSchema.
Record t : Type := mk {
  classes : gmap string CredentialClass.t;
}.
End CredentialSchema.

Module EVENT_KINDS.
Definition METADATA : Z := 0.
Definition TEXT_NOTE : Z := 1.
Definition CONTACTS : Z := 3.
Definition DM : Z := 4.
Definition DELETE : Z := 5.
Definition BADGE_DEFINITION : Z := 30009.
Definition BADGE_AWARD : Z := 8.
Definition PROFILE_BADGES : Z := 30008.
Definition CREDENTIAL_SCHEMA : Z := 30100.
Definition CREDENTIAL_GRANT : Z := 30101.
Definition CREDENTIAL_REVOCATION : Z := 30102.
Definition CREDENTIAL_RENEWAL : Z := 30103.
End EVENT_KINDS.

Inductive VerificationResult : Type :=
| VALID (chain_depth : Z)
| INVALID (reason : string)
| EXPIRED (expired_at : Z)
| REVOKED (revoked_at : Z) (reason : string).

Module Filter.
Record t : Type := mk {
  ids : option (list string);
  authors : option (list string);
  kinds : option (list Z);
  tag_e : option (list string);
  tag_p : option (list string);
  tag_a : option (list string);
  tag_d : option (list string);
  since : option Z;
  until : option Z;
  limit : option Z;
}.
Definition empty : t := mk None None None None None None None None None None.
End Filter.

Module EventRow.
(** The [tags] column holds [JSON.stringify(event.tags)] and is read
    back with [JSON.parse]; the row keeps the array itself. *)
Record t : Type := mk {
  id : string;
  pubkey : string;
  created_at : Z;
  kind : Z;
  tags : list (list string);
  content : string;
  sig : string;
  d_tag : option string;
  a_tag : option string;
  expires_at : option Z;
}.
End EventRow.

Module CredentialRow.
Record t : Type := mk {
  event_id : string;
  schema_ref : string;
  class_id : string;
  recipient : string;
  issuer : string;
  issued_at : Z;
  expires_at : option Z;
  chain_ref : option string;
  revoked : Z;
  revoked_at : option Z;
  revoke_reason : option string;
}.
End CredentialRow.

Module SchemaRow.
Record t : Type := mk {
  ref : string;
  pubkey : string;
  d_tag : string;
  content : string;
  created_at : Z;
}.
End SchemaRow.

(** What the program obtains from its host environment. *)
Class Runtime : Type := {
  (** [JSON.stringify] *)
  JSON_stringify : JS.value -> string;
  (** [JSON.parse(content) as CredentialSchema]; [None] when parsing throws *)
  JSON_parse_schema : string -> option CredentialSchema.t;
  (** [bytesToHex(sha256(new TextEncoder().encode(s)))] *)
  sha256_hex : string -> string;
  (** [schnorr.verify(hexToBytes(sig), hexToBytes(id), hexToBytes(pubkey))],
      [false] when decoding throws *)
  schnorr_verify_hex : string -> string -> string -> bool;
  (** SQLite's [text LIKE pattern] *)
  sql_like : string -> string -> bool;
}.

(** ** Cryptographic helpers and event validation ([crypto.ts]) *)

(** The event as [validateEvent] receives it: parsed JSON whose fields have
    not been type-checked yet. *)
Module RawEvent.
Record t : Type := mk {
  id : JS.value;
  pubkey : JS.value;
  created_at : JS.value;
  kind : JS.value;
  tags : JS.value;
  content : JS.value;
  sig : JS.value;
}.
End RawEvent.

Module Validation.
Record t : Type := mk {
  valid : bool;
  reason : option string;
}.
Definition ok : t := mk true None.
Definition fail (why : string) : t := mk false (Some why).
End Validation.

Module ATag.
Record t : Type := mk {
  kind : Z;
  pubkey : string;
  dTag : string;
}.
End ATag.

Definition typeof (v : JS.value) : string :=
  match v with
  | JS.JUndefined => "undefined"
  | JS.JNull => "object"
  | JS.JBool _ => "boolean"
  | JS.JNumber _ => "number"
  | JS.JString _ => "string"
  | JS.JArray _ | JS.JObject _ => "object"
  end.

(** [v.length]; only read behind a [typeof v !== 'string'] guard. *)
Definition length_of (v : JS.value) : Z :=
  match v with
  | JS.JString s => Z.of_nat (String.length s)
  | JS.JArray items => Z.of_nat (length items)
  | _ => 0
  end.

(** [v < 0]; only read behind a [typeof v !== 'number'] guard. *)
Definition negative (v : JS.value) : bool :=
  match v with
  | JS.JNumber n => n <? 0
  | _ => false
  end.

(** [s === v] for a string [s]. *)
Definition string_is (s : string) (v : JS.value) : bool :=
  match v with
  | JS.JString s' => bool_decide (s = s')
  | _ => false
  end.

Definition tags_value (tags : list (list string)) : JS.value :=
  JS.JArray (map (fun t => JS.JArray (map JS.JString t)) tags).

Section Crypto.
Context {rt : Runtime}.

Definition serializeEvent (pubkey created_at kind tags content : JS.value) : string :=
  JSON_stringify (JS.JArray [JS.JNumber 0; pubkey; created_at; kind; tags; content]).

Definition computeEventId (pubkey created_at kind tags content : JS.value) : string :=
  sha256_hex (serializeEvent pubkey created_at kind tags content).

(** [hexToBytes] throws on anything but a hex string; the [catch] turns
    that into [false]. *)
Definition verifySignature (event : RawEvent.t) : bool :=
  match RawEvent.pubkey event, RawEvent.sig event, RawEvent.id event with
  | JS.JString pubkey, JS.JString sig, JS.JString id => schnorr_verify_hex sig id pubkey
  | _, _, _ => false
  end.

Definition validateEvent (event : RawEvent.t) : Validation.t :=
  if negb (JS.truthy (RawEvent.id event))
     || negb (bool_decide (typeof (RawEvent.id event) = "string"))
     || negb (length_of (RawEvent.id event) =? 64)
  then Validation.fail "invalid id"
  else if negb (JS.truthy (RawEvent.pubkey event))
     || negb (bool_decide (typeof (RawEvent.pubkey event) = "string"))
     || negb (length_of (RawEvent.pubkey event) =? 64)
  then Validation.fail "invalid pubkey"
  else if negb (JS.truthy (RawEvent.sig event))
     || negb (bool_decide (typeof (RawEvent.sig event) = "string"))
     || negb (length_of (RawEvent.sig event) =? 128)
  then Validation.fail "invalid sig"
  else if negb (bool_decide (typeof (RawEvent.created_at event) = "number"))
     || negative (RawEvent.created_at event)
  then Validation.fail "invalid created_at"
  else if negb (bool_decide (typeof (RawEvent.kind event) = "number"))
     || negative (RawEvent.kind event)
  then Validation.fail "invalid kind"
  else if negb (JS.isArray (RawEvent.tags event))
  then Validation.fail "invalid tags"
  else if negb (bool_decide (typeof (RawEvent.content event) = "string"))
  then Validation.fail "invalid content"
  else
    let computedId :=
      computeEventId (RawEvent.pubkey event) (RawEvent.created_at event)
        (RawEvent.kind event) (RawEvent.tags event) (RawEvent.content event) in
    if negb (string_is computedId (RawEvent.id event))
    then Validation.fail "id mismatch"
    else if negb (verifySignature event)
    then Validation.fail "invalid signature"
    else Validation.ok.

End Crypto.

(** [event.tags.find(t => t[0] === tagName)?.[1]] *)
Definition getTagValue (event : NostrEvent.t) (tagName : string) : option string :=
  match List.find (fun t => bool_decide (t !! 0%nat = Some tagName)) (NostrEvent.tags event) with
  | Some tag => tag !! 1%nat
  | None => None
  end.

Definition getTagValues (event : NostrEvent.t) (tagName : string) : list string :=
  omap (fun t => t !! 1%nat)
    (List.filter (fun t => bool_decide (t !! 0%nat = Some tagName)) (NostrEvent.tags event)).

Definition parseATag (aTag : string) : option ATag.t :=
  let parts := JS.split ":" aTag in
  if Z.of_nat (length parts) <? 3 then None
  else
    match JS.parseInt (nth 0 parts EmptyString) with
    | None => None
    | Some kind =>
        let pubkey := nth 1 parts EmptyString in
        if negb (Z.of_nat (String.length pubkey) =? 64) then None
        else Some (ATag.mk kind pubkey (JS.join ":" (drop 2 parts)))
    end.

(** ** The event store ([database.ts]) *)

Module Db.
Record t : Type := mk {
  events : list EventRow.t;
  credentials : gmap string CredentialRow.t;
  schemas : gmap string SchemaRow.t;
}.
(** The tables right after [init]. *)
Definition empty : t := mk [] ∅ ∅.
End Db.

(** The expression
    [s === 'perpetual' ? null : parseInt(s ?? '0', 10) || null],
    written out three times in the source ([indexCredential], [verify],
    [verifyChain]). *)
Definition expiresNumeric (expiresStr : option string) : option Z :=
  if bool_decide (expiresStr = Some "perpetual") then None
  else JS.orNull (JS.parseInt (default "0" expiresStr)).

Definition isReplaceable (kind : Z) : bool :=
  (kind =? 0) || (kind =? 3) || ((10000 <=? kind) && (kind <? 20000)).

Definition isParameterizedReplaceable (kind : Z) : bool :=
  (30000 <=? kind) && (kind <? 40000).

(** [created_at < ? OR (created_at = ? AND id < ?)], with the incoming
    event's [created_at] and [id] as parameters; text compares bytewise. *)
Definition superseded_by (event : NostrEvent.t) (row : EventRow.t) : bool :=
  (EventRow.created_at row <? NostrEvent.created_at event)
  || ((EventRow.created_at row =? NostrEvent.created_at event)
      && String.ltb (EventRow.id row) (NostrEvent.id event)).

(** [DELETE FROM events WHERE cond]; the foreign key of [credentials] is
    declared [ON DELETE CASCADE] and foreign keys are switched on. *)
Definition delete_events (cond : EventRow.t -> bool) (db : Db.t) : Db.t :=
  let gone := List.filter cond (Db.events db) in
  Db.mk
    (List.filter (fun row => negb (cond row)) (Db.events db))
    (foldr (fun row creds => delete (EventRow.id row) creds) (Db.credentials db) gone)
    (Db.schemas db).

(** [INSERT OR IGNORE INTO events]: the primary key is [id]. *)
Definition insert_or_ignore_event (row : EventRow.t) (db : Db.t) : Db.t :=
  if existsb (fun r => bool_decide (EventRow.id r = EventRow.id row)) (Db.events db)
  then db
  else Db.mk (Db.events db ++ [row]) (Db.credentials db) (Db.schemas db).

(** [indexCredential].  [parseInt(issuedAt, 10)] is bound to the
    [NOT NULL] column [issued_at]; a [NaN] is bound as [NULL], the
    statement aborts and the driver throws: [None]. *)
Definition indexCredential (db : Db.t) (event : NostrEvent.t) : option Db.t :=
  let schemaRef := getTagValue event "a" in
  let classId := getTagValue event "class" in
  let recipient := getTagValue event "p" in
  let issuedAt := getTagValue event "issued" in
  let expiresAt := getTagValue event "expires" in
  let chainRef := getTagValue event "chain" in
  if JS.falsy schemaRef || JS.falsy classId || JS.falsy recipient || JS.falsy issuedAt
  then Some db
  else
    let expires := expiresNumeric expiresAt in
    match JS.parseInt (default EmptyString issuedAt) with
    | None => None
    | Some issued =>
        let row :=
          CredentialRow.mk (NostrEvent.id event)
            (default EmptyString schemaRef) (default EmptyString classId)
            (default EmptyString recipient) (NostrEvent.pubkey event)
            issued expires chainRef 0 None None in
        Some (Db.mk (Db.events db)
                (<[NostrEvent.id event := row]> (Db.credentials db))
                (Db.schemas db))
    end.

Definition cacheSchema (db : Db.t) (event : NostrEvent.t) : Db.t :=
  let dTag := getTagValue event "d" in
  if JS.falsy dTag then db
  else
    let d := default EmptyString dTag in
    let ref := "30300:" +:+ NostrEvent.pubkey event +:+ ":" +:+ d in
    Db.mk (Db.events db) (Db.credentials db)
      (<[ref := SchemaRow.mk ref (NostrEvent.pubkey event) d
                  (NostrEvent.content event) (NostrEvent.created_at event)]>
         (Db.schemas db)).

Definition mark_revoked (at_ : Z) (reason : string) (row : CredentialRow.t) : CredentialRow.t :=
  CredentialRow.mk (CredentialRow.event_id row) (CredentialRow.schema_ref row)
    (CredentialRow.class_id row) (CredentialRow.recipient row)
    (CredentialRow.issuer row) (CredentialRow.issued_at row)
    (CredentialRow.expires_at row) (CredentialRow.chain_ref row)
    1 (Some at_) (Some reason).

(** The [SET expires_at = ?] of [processRenewal], under its
    [AND revoked = 0]. *)
Definition set_expires (expiresAt : option Z) (row : CredentialRow.t) : CredentialRow.t :=
  if CredentialRow.revoked row =? 0
  then
    CredentialRow.mk (CredentialRow.event_id row) (CredentialRow.schema_ref row)
      (CredentialRow.class_id row) (CredentialRow.recipient row)
      (CredentialRow.issuer row) (CredentialRow.issued_at row)
      expiresAt (CredentialRow.chain_ref row)
      (CredentialRow.revoked row) (CredentialRow.revoked_at row)
      (CredentialRow.revoke_reason row)
  else row.

Definition processRevocation (db : Db.t) (event : NostrEvent.t) : Db.t :=
  let aTag := getTagValue event "a" in
  let reason := default "unspecified" (getTagValue event "reason") in
  if JS.falsy aTag then db
  else
    let parts := JS.split ":" (default EmptyString aTag) in
    if (Z.of_nat (length parts) <? 3)
       || negb (bool_decide (nth 0 parts EmptyString = "30301"))
    then db
    else
      let credentialId := nth 2 parts EmptyString in
      Db.mk (Db.events db)
        (alter (mark_revoked (NostrEvent.created_at event) reason) credentialId
           (Db.credentials db))
        (Db.schemas db).

(** A [NaN] from [parseInt(newExpires, 10)] is bound as [NULL]. *)
Definition processRenewal (db : Db.t) (event : NostrEvent.t) : Db.t :=
  let aTag := getTagValue event "a" in
  let newExpires := getTagValue event "expires" in
  if JS.falsy aTag || JS.falsy newExpires then db
  else
    let parts := JS.split ":" (default EmptyString aTag) in
    if (Z.of_nat (length parts) <? 3)
       || negb (bool_decide (nth 0 parts EmptyString = "30301"))
    then db
    else
      let credentialId := nth 2 parts EmptyString in
      let expiresAt := JS.parseInt (default EmptyString newExpires) in
      Db.mk (Db.events db)
        (alter (set_expires expiresAt) credentialId (Db.credentials db))
        (Db.schemas db).

(** [saveEvent] returns its boolean together with the tables it leaves.
    Each statement commits on its own, so when [indexCredential] throws,
    the deletions and the insert into [events] stay. *)
Definition saveEvent (db : Db.t) (event : NostrEvent.t) : bool * Db.t :=
  let dTag := getTagValue event "d" in
  let aTag := getTagValue event "a" in
  let expiresTag := getTagValue event "expiration" in
  let expiresAt :=
    if JS.falsy expiresTag then None
    else JS.parseInt (default EmptyString expiresTag) in
  let same_author (row : EventRow.t) :=
    (EventRow.kind row =? NostrEvent.kind event)
    && bool_decide (EventRow.pubkey row = NostrEvent.pubkey event) in
  let db1 :=
    if isReplaceable (NostrEvent.kind event)
    then delete_events (fun row => same_author row && superseded_by event row) db
    else db in
  let db2 :=
    match dTag with
    | Some d =>
        if isParameterizedReplaceable (NostrEvent.kind event)
        then delete_events
               (fun row => same_author row
                           && bool_decide (EventRow.d_tag row = Some d)
                           && superseded_by event row) db1
        else db1
    | None => db1
    end in
  let db3 :=
    insert_or_ignore_event
      (EventRow.mk (NostrEvent.id event) (NostrEvent.pubkey event)
         (NostrEvent.created_at event) (NostrEvent.kind event)
         (NostrEvent.tags event) (NostrEvent.content event)
         (NostrEvent.sig event) dTag aTag expiresAt) db2 in
  match
    (if NostrEvent.kind event =? EVENT_KINDS.CREDENTIAL_GRANT
     then indexCredential db3 event else Some db3)
  with
  | None => (false, db3)
  | Some db4 =>
      let db5 :=
        if NostrEvent.kind event =? EVENT_KINDS.CREDENTIAL_SCHEMA
        then cacheSchema db4 event else db4 in
      let db6 :=
        if NostrEvent.kind event =? EVENT_KINDS.CREDENTIAL_REVOCATION
        then processRevocation db5 event else db5 in
      let db7 :=
        if NostrEvent.kind event =? EVENT_KINDS.CREDENTIAL_RENEWAL
        then processRenewal db6 event else db6 in
      (true, db7)
  end.

(** The store after a sequence of [saveEvent] calls. *)
Definition saveEvents (db : Db.t) (events : list NostrEvent.t) : Db.t :=
  foldl (fun d e => snd (saveEvent d e)) db events.

(** [filter.f?.length]: the field is set and not empty. *)
Definition given {A : Type} (f : option (list A)) : bool :=
  match f with
  | Some (_ :: _) => true
  | _ => false
  end.

Definition dquote : string := String "034" EmptyString.

(** The [LIKE] pattern of a tag filter: a percent sign, then the JSON text
    of the opening of a two-element array [name, value], then a percent
    sign. *)
Definition tag_pattern (name value : string) : string :=
  "%[" +:+ dquote +:+ name +:+ dquote +:+ "," +:+ dquote +:+ value +:+ dquote +:+ "%".

(** [ORDER BY created_at DESC].  SQL leaves the order of rows with equal
    [created_at] open; the model keeps them in insertion order. *)
Fixpoint insert_desc (row : EventRow.t) (sorted : list EventRow.t) : list EventRow.t :=
  match sorted with
  | [] => [row]
  | r :: rest =>
      if EventRow.created_at row <? EventRow.created_at r
      then r :: insert_desc row rest
      else row :: sorted
  end.

Definition order_by_created_at_desc (rows : list EventRow.t) : list EventRow.t :=
  foldr insert_desc [] rows.

(** [LIMIT n]; a negative [n] means no limit. *)
Definition sql_limit {A : Type} (n : Z) (rows : list A) : list A :=
  if n <? 0 then rows else take (Z.to_nat n) rows.

Definition row_event (row : EventRow.t) : NostrEvent.t :=
  NostrEvent.mk (EventRow.id row) (EventRow.pubkey row) (EventRow.created_at row)
    (EventRow.kind row) (EventRow.tags row) (EventRow.content row) (EventRow.sig row).

Section Queries.
Context {rt : Runtime}.

(** The [WHERE] clause built by [queryEvents]; [wall] is
    [Math.floor(Date.now() / 1000)]. *)
Definition matches (wall : Z) (filter : Filter.t) (row : EventRow.t) : bool :=
  (if given (Filter.ids filter)
   then bool_decide (EventRow.id row ∈ default [] (Filter.ids filter)) else true)
  && (if given (Filter.authors filter)
      then bool_decide (EventRow.pubkey row ∈ default [] (Filter.authors filter)) else true)
  && (if given (Filter.kinds filter)
      then bool_decide (EventRow.kind row ∈ default [] (Filter.kinds filter)) else true)
  && (if given (Filter.tag_e filter)
      then existsb (fun e => sql_like (JSON_stringify (tags_value (EventRow.tags row)))
                               (tag_pattern "e" e))
             (default [] (Filter.tag_e filter))
      else true)
  && (if given (Filter.tag_p filter)
      then existsb (fun p => sql_like (JSON_stringify (tags_value (EventRow.tags row)))
                               (tag_pattern "p" p))
             (default [] (Filter.tag_p filter))
      else true)
  && (if given (Filter.tag_a filter)
      then match EventRow.a_tag row with
           | Some a => bool_decide (a ∈ default [] (Filter.tag_a filter))
           | None => false
           end
      else true)
  && (if given (Filter.tag_d filter)
      then match EventRow.d_tag row with
           | Some d => bool_decide (d ∈ default [] (Filter.tag_d filter))
           | None => false
           end
      else true)
  && match Filter.since filter with
     | Some since => since <=? EventRow.created_at row
     | None => true
     end
  && match Filter.until filter with
     | Some until => EventRow.created_at row <=? until
     | None => true
     end
  && match EventRow.expires_at row with
     | None => true
     | Some e => wall <? e
     end.

Definition queryEvents (db : Db.t) (wall : Z) (filter : Filter.t) : list NostrEvent.t :=
  let limit := default 500 (Filter.limit filter) in
  map row_event
    (sql_limit limit
       (order_by_created_at_desc (List.filter (matches wall filter) (Db.events db)))).

End Queries.

Definition getCredential (db : Db.t) (eventId : string) : option CredentialRow.t :=
  Db.credentials db !! eventId.

Definition getSchema (db : Db.t) (ref : string) : option SchemaRow.t :=
  Db.schemas db !! ref.

Definition getEvent (db : Db.t) (id : string) : option NostrEvent.t :=
  row_event <$> List.find (fun row => bool_decide (EventRow.id row = id)) (Db.events db).

Definition deleteEvent (db : Db.t) (id pubkey : string) : bool * Db.t :=
  let cond (row : EventRow.t) :=
    bool_decide (EventRow.id row = id) && bool_decide (EventRow.pubkey row = pubkey) in
  (existsb cond (Db.events db), delete_events cond db).

(** ** The credential verifier ([CredentialVerifier]) *)

(** One entry per call of [findCredentialEvent] made by the chain walk:
    the issuance time of the downstream credential being checked and what
    the lookup returned.  The log is ghost state: the result of the
    verifier is the first component of what the traced functions return. *)
Module Lookup.
Record t : Type := mk {
  child_issued : JS.num;
  upstream : option NostrEvent.t;
}.
End Lookup.

Module CredentialVerifier.
Section Verifier.
Context {rt : Runtime}.

Definition findCredentialEvent (db : Db.t) (wall : Z) (pubkey dTag : string)
  : option NostrEvent.t :=
  let events :=
    queryEvents db wall
      (Filter.mk None (Some [pubkey]) (Some [EVENT_KINDS.CREDENTIAL_GRANT])
         None None None (Some [dTag]) None None (Some 1)) in
  head events.

(** [JSON.parse(cached.content) as CredentialSchema]: the cast is not
    checked by the program; [JSON_parse_schema] stands for documents that
    have the declared shape. *)
Definition getSchema (db : Db.t) (schemaRef : string) : option CredentialSchema.t :=
  match getSchema db schemaRef with
  | None => None
  | Some cached => JSON_parse_schema (SchemaRow.content cached)
  end.

Definition revoked_row (row : option CredentialRow.t) : bool :=
  match row with
  | Some r => negb (CredentialRow.revoked r =? 0)
  | None => false
  end.

(** [verifyChain], by recursion on [fuel]; [None] only when the fuel runs
    out.  The second component of the result is the log of lookups, oldest
    first. *)
Fixpoint verifyChain_rec (fuel : nat) (db : Db.t) (wall : Z)
    (issuerPubkey : string) (credentialIssuedAt : JS.num)
    (credentialClassId : string) (allowedIssuers : list string)
    (chainRef : string) (schema : CredentialSchema.t) (rootPubkey : string)
    (now : Z) (depth : Z) : option (VerificationResult * list Lookup.t) :=
  if 5 <? depth then Some (INVALID "chain too deep (max 5)", [])
  else
  match fuel with
  | O => None
  | S fuel' =>
  match parseATag chainRef with
  | None => Some (INVALID "invalid chain reference", [])
  | Some chainInfo =>
  if negb (ATag.kind chainInfo =? 30301)
  then Some (INVALID "invalid chain reference", [])
  else
  let found := findCredentialEvent db wall (ATag.pubkey chainInfo) (ATag.dTag chainInfo) in
  let log := [Lookup.mk credentialIssuedAt found] in
  match found with
  | None => Some (INVALID "issuer credential not found", log)
  | Some issuerCredentialEvent =>
  let issuerCredentialRecipient := getTagValue issuerCredentialEvent "p" in
  if negb (bool_decide (issuerCredentialRecipient = Some issuerPubkey))
  then Some (INVALID "chain pubkey mismatch", log)
  else
  let issuerClassIdTag := getTagValue issuerCredentialEvent "class" in
  if JS.falsy issuerClassIdTag
  then Some (INVALID "issuer credential missing class", log)
  else
  let issuerClassId := default EmptyString issuerClassIdTag in
  if negb (JS.includes allowedIssuers issuerClassId)
  then Some (INVALID ("issuer class '" +:+ issuerClassId +:+ "' not authorized to issue '"
                        +:+ credentialClassId +:+ "'"), log)
  else
  match CredentialSchema.classes schema !! issuerClassId with
  | None => Some (INVALID "issuer class not found in schema", log)
  | Some issuerClassDef =>
  if negb (JS.includes (CredentialClass.scope issuerClassDef) credentialClassId)
  then Some (INVALID ("issuer class '" +:+ issuerClassId +:+ "' lacks scope to issue '"
                        +:+ credentialClassId +:+ "'"), log)
  else
  let issuerIssuedStr := getTagValue issuerCredentialEvent "issued" in
  let issuerExpiresStr := getTagValue issuerCredentialEvent "expires" in
  if JS.falsy issuerIssuedStr
  then Some (INVALID "issuer credential missing issued timestamp", log)
  else
  let issuerIssuedAt := JS.parseInt (default EmptyString issuerIssuedStr) in
  let issuerExpiresAt := expiresNumeric issuerExpiresStr in
  if JS.gt issuerIssuedAt credentialIssuedAt
  then Some (INVALID "issuer credential issued after downstream credential", log)
  else
  if match issuerExpiresAt with
     | Some e => JS.lt (Some e) credentialIssuedAt
     | None => false
     end
  then Some (INVALID "issuer credential was expired at issuance time", log)
  else
  let issuerCredRow := getCredential db (NostrEvent.id issuerCredentialEvent) in
  if revoked_row issuerCredRow
     && CredentialClass.cascade_revoke issuerClassDef
     && match issuerCredRow ≫= CredentialRow.revoked_at with
        | Some r => negb (r =? 0) && JS.le (Some r) credentialIssuedAt
        | None => false
        end
  then Some (INVALID "issuer credential was revoked (cascade)", log)
  else
  let issuerChainRef := getTagValue issuerCredentialEvent "chain" in
  if JS.includes (CredentialClass.issued_by issuerClassDef) "root"
     && bool_decide (NostrEvent.pubkey issuerCredentialEvent = rootPubkey)
  then Some (VALID depth, log)
  else
  if JS.falsy issuerChainRef
  then Some (INVALID "broken chain - non-root issuer without chain reference", log)
  else
  match
    verifyChain_rec fuel' db wall
      (NostrEvent.pubkey issuerCredentialEvent) issuerIssuedAt issuerClassId
      (CredentialClass.issued_by issuerClassDef)
      (default EmptyString issuerChainRef) schema rootPubkey now (depth + 1)
  with
  | Some (result, rest) => Some (result, (log ++ rest)%list)
  | None => None
  end
  end end end end.

(** The fuel that the decreasing measure [6 - depth] provides. *)
Definition verifyChain_traced (db : Db.t) (wall : Z)
    (issuerPubkey : string) (credentialIssuedAt : JS.num)
    (credentialClassId : string) (allowedIssuers : list string)
    (chainRef : string) (schema : CredentialSchema.t) (rootPubkey : string)
    (now : Z) (depth : Z) : option (VerificationResult * list Lookup.t) :=
  verifyChain_rec (Z.to_nat (6 - depth)) db wall issuerPubkey credentialIssuedAt
    credentialClassId allowedIssuers chainRef schema rootPubkey now depth.

(** [verify(credentialEvent, now)]; [wall] is the clock that
    [queryEvents] reads. *)
Definition verify_traced (db : Db.t) (wall : Z) (credentialEvent : NostrEvent.t) (now : Z)
  : option (VerificationResult * list Lookup.t) :=
  if negb (NostrEvent.kind credentialEvent =? EVENT_KINDS.CREDENTIAL_GRANT)
  then Some (INVALID "not a credential event", [])
  else
  let schemaRefTag := getTagValue credentialEvent "a" in
  let classIdTag := getTagValue credentialEvent "class" in
  let issuedStr := getTagValue credentialEvent "issued" in
  let expiresStr := getTagValue credentialEvent "expires" in
  let chainRef := getTagValue credentialEvent "chain" in
  if JS.falsy schemaRefTag || JS.falsy classIdTag || JS.falsy issuedStr
  then Some (INVALID "missing required tags", [])
  else
  let schemaRef := default EmptyString schemaRefTag in
  let classId := default EmptyString classIdTag in
  let issuedAt := JS.parseInt (default EmptyString issuedStr) in
  let expiresAt := expiresNumeric expiresStr in
  let credRow := getCredential db (NostrEvent.id credentialEvent) in
  if revoked_row credRow
  then Some (REVOKED (default now (credRow ≫= CredentialRow.revoked_at))
                     (default "unspecified" (credRow ≫= CredentialRow.revoke_reason)), [])
  else
  let effectiveExpiry :=
    match credRow ≫= CredentialRow.expires_at with
    | Some e => Some e
    | None => expiresAt
    end in
  match effectiveExpiry ≫= (fun e => if e <? now then Some e else None) with
  | Some e => Some (EXPIRED e, [])
  | None =>
  match getSchema db schemaRef with
  | None => Some (INVALID "schema not found", [])
  | Some schema =>
  match CredentialSchema.classes schema !! classId with
  | None => Some (INVALID "credential class not found in schema", [])
  | Some classDefinition =>
  match parseATag schemaRef with
  | None => Some (INVALID "invalid schema reference", [])
  | Some schemaInfo =>
  let rootPubkey := ATag.pubkey schemaInfo in
  if JS.includes (CredentialClass.issued_by classDefinition) "root"
     && bool_decide (NostrEvent.pubkey credentialEvent = rootPubkey)
  then Some (VALID 0, [])
  else
  if JS.falsy chainRef
  then Some (INVALID "non-root issuer without chain reference", [])
  else
  verifyChain_traced db wall (NostrEvent.pubkey credentialEvent) issuedAt classId
    (CredentialClass.issued_by classDefinition) (default EmptyString chainRef)
    schema rootPubkey now 1
  end end end end.

Definition verifyChain (db : Db.t) (wall : Z)
    (issuerPubkey : string) (credentialIssuedAt : JS.num)
    (credentialClassId : string) (allowedIssuers : list string)
    (chainRef : string) (schema : CredentialSchema.t) (rootPubkey : string)
    (now : Z) (depth : Z) : option VerificationResult :=
  fst <$> verifyChain_traced db wall issuerPubkey credentialIssuedAt
            credentialClassId allowedIssuers chainRef schema rootPubkey now depth.

Definition verify (db : Db.t) (wall : Z) (credentialEvent : NostrEvent.t) (now : Z)
  : option VerificationResult :=
  fst <$> verify_traced db wall credentialEvent now.

End Verifier.
End CredentialVerifier.

(** ** Properties of a walked chain *)

(** [parseInt] of the [issued] tag of a grant ([NaN] when there is none). *)
Definition issued_of (grant : NostrEvent.t) : JS.num :=
  match getTagValue grant "issued" with
  | Some s => JS.parseInt s
  | None => JS.NaN
  end.

(** The log of a walk is linked: every lookup was checked against the
    issuance time of the grant found by the lookup before it, the first one
    against [child]; only the last lookup may have found nothing. *)
Fixpoint linked (child : JS.num) (log : list Lookup.t) : Prop :=
  match log with
  | [] => True
  | l :: rest =>
      Lookup.child_issued l = child
      /\ match Lookup.upstream l with
         | Some U => linked (issued_of U) rest
         | None => rest = []
         end
  end.


(** Authority at issuance, as the walk establishes it: the comparisons hold
    between timestamps that parse, and the expiry that counts is the one
    [expiresNumeric] yields (a nonzero integer). *)
Definition authority_at_issuance (l : Lookup.t) : Prop :=
  match Lookup.upstream l with
  | Some U =>
      (forall u c, issued_of U = Some u -> Lookup.child_issued l = Some c -> u <= c)
      /\ (forall e c, expiresNumeric (getTagValue U "expires") = Some e ->
                      Lookup.child_issued l = Some c -> c <= e)
  | None => True
  end.


(** The same store with another schema cache. *)
Definition with_schemas (schemas : gmap string SchemaRow.t) (db : Db.t) : Db.t :=
  Db.mk (Db.events db) (Db.credentials db) schemas.

(** [tags] is an array of arrays. *)
Definition array_of_arrays (v : JS.value) : bool :=
  match v with
  | JS.JArray items => forallb JS.isArray items
  | _ => false
  end.

(** ** Sample data for the examples *)

Module Sample.

Definition key (c : ascii) : string := string_of_list_ascii (repeat c 64).

Definition root : string := key "a".
Definition dana : string := key "d".
Definition erin : string := key "e".
Definition mallory : string := key "f".

Definition q (s : string) : string := dquote +:+ s +:+ dquote.

Definition class_json (name scope issued_by renewable : string) : string :=
  "{" +:+ q "name" +:+ ":" +:+ q name +:+ "," +:+ q "scope" +:+ ":[" +:+ scope +:+ "],"
  +:+ q "issued_by" +:+ ":[" +:+ issued_by +:+ "]," +:+ q "expiry" +:+ ":{"
  +:+ q "max_days" +:+ ":null," +:+ q "renewable" +:+ ":" +:+ renewable +:+ "},"
  +:+ q "cascade_revoke" +:+ ":false}".

(** The schema document: a root-issued, non-renewable class [director]
    that may issue [instructor], and a class [peer] whose holders may
    issue it to one another. *)
Definition schema_json : string :=
  "{" +:+ q "classes" +:+ ":{"
  +:+ q "director" +:+ ":" +:+ class_json "Director" (q "instructor") (q "root") "false" +:+ ","
  +:+ q "instructor" +:+ ":" +:+ class_json "Instructor" EmptyString (q "director") "true" +:+ ","
  +:+ q "peer" +:+ ":" +:+ class_json "Peer" (q "peer") (q "peer") "true"
  +:+ "}}".

Definition schema : CredentialSchema.t :=
  CredentialSchema.mk
    (list_to_map
       [("director",
         CredentialClass.mk "Director" None ["instructor"] ["root"]
           (CredentialClass.mkExpiry None false) false);
        ("instructor",
         CredentialClass.mk "Instructor" None [] ["director"]
           (CredentialClass.mkExpiry None true) false);
        ("peer",
         CredentialClass.mk "Peer" None ["peer"] ["peer"]
           (CredentialClass.mkExpiry None true) false)]).

(** A runtime to run the examples with.  It decodes the one schema
    document above.  Its hash and signature oracles are constant: under
    them the raw event [untagged] below is an event whose id matches its
    hash and whose signature verifies.  No example uses [LIKE]. *)
Definition runtime : Runtime := {|
  JSON_stringify := fun _ => EmptyString;
  JSON_parse_schema := fun s => if bool_decide (s = schema_json) then Some schema else None;
  sha256_hex := fun _ => key "0";
  schnorr_verify_hex := fun _ _ _ => true;
  sql_like := fun _ _ => false;
|}.

Definition schema_event : NostrEvent.t :=
  NostrEvent.mk (key "1") root 10 EVENT_KINDS.CREDENTIAL_SCHEMA
    [["d"; "training"]; ["name"; "training"]] schema_json "sig".

(** The address under which [cacheSchema] files [schema_event], and the
    address computed from the configured schema kind. *)
Definition cached_ref : string := "30300:" +:+ root +:+ ":training".
Definition configured_ref : string := "30100:" +:+ root +:+ ":training".

Definition grant (id issuer recipient d class issued expires : string)
    (chain : list (list string)) : NostrEvent.t :=
  NostrEvent.mk id issuer 0 EVENT_KINDS.CREDENTIAL_GRANT
    ([["d"; d]; ["p"; recipient]; ["a"; cached_ref]; ["class"; class];
      ["issued"; issued]; ["expires"; expires]] ++ chain) EmptyString "sig".

(** Root makes dana a director, with [expires] set to [0]. *)
Definition lapsed_director : NostrEvent.t :=
  grant (key "2") root dana "dir-1" "director" "50" "0" [].

(** Dana makes erin an instructor at time 100. *)
Definition instructor_grant : NostrEvent.t :=
  grant (key "3") dana erin "ins-1" "instructor" "100" "perpetual"
    [["chain"; "30301:" +:+ root +:+ ":dir-1"]].



(** Root makes dana a director from 1000 to 2000. *)
Definition director_grant : NostrEvent.t :=
  grant (key "6") root dana "dir-2" "director" "1000" "2000" [].

(** Mallory, who holds no credential, revokes [director_grant]. *)
Definition revocation : NostrEvent.t :=
  NostrEvent.mk (key "7") mallory 1500 EVENT_KINDS.CREDENTIAL_REVOCATION
    [["a"; "30301:" +:+ root +:+ ":" +:+ key "6"]; ["reason"; "spite"]] EmptyString "sig".

(** A renewal of [director_grant], whose class is not renewable. *)
Definition renewal : NostrEvent.t :=
  NostrEvent.mk (key "8") root 2500 EVENT_KINDS.CREDENTIAL_RENEWAL
    [["a"; "30301:" +:+ root +:+ ":" +:+ key "6"]; ["expires"; "9000"]] EmptyString "sig".

(** Dana makes herself a peer, naming the grant itself as her authority:
    a cycle of length one. *)
Definition self_issued : NostrEvent.t :=
  grant (key "c") dana dana "loop" "peer" "100" "perpetual"
    [["chain"; "30301:" +:+ dana +:+ ":loop"]].

(** Two versions of dana's profile (kind 0, replaceable). *)
Definition profile_new : NostrEvent.t :=
  NostrEvent.mk (key "9") dana 200 EVENT_KINDS.METADATA [] "new" "sig".
Definition profile_old : NostrEvent.t :=
  NostrEvent.mk (key "8") dana 100 EVENT_KINDS.METADATA [] "old" "sig".

Definition by_kind_and_author (kind : Z) (author : string) : Filter.t :=
  Filter.mk None (Some [author]) (Some [kind]) None None None None None None None.

(** A raw event whose [tags] is an array holding a string. *)
Definition untagged : RawEvent.t :=
  RawEvent.mk (JS.JString (key "0")) (JS.JString dana) (JS.JNumber 100) (JS.JNumber 1)
    (JS.JArray [JS.JString "d"]) (JS.JString "hello")
    (JS.JString (key "5" +:+ key "5")).

(** A raw event whose [tags] is not an array. *)
Definition tagless : RawEvent.t :=
  RawEvent.mk (JS.JString (key "0")) (JS.JString dana) (JS.JNumber 100) (JS.JNumber 1)
    (JS.JString "d") (JS.JString "hello")
    (JS.JString (key "5" +:+ key "5")).

End Sample.

(** ** Further parts of the program: admission, the relay front-end *)

(** [n.toString()] for an integer. *)
Definition number_toString (n : Z) : string :=
  DecimalString.NilZero.string_of_int (Z.to_int n).

(** The row that [saveEvent] inserts for an event. *)
Definition event_row (event : NostrEvent.t) : EventRow.t :=
  EventRow.mk (NostrEvent.id event) (NostrEvent.pubkey event)
    (NostrEvent.created_at event) (NostrEvent.kind event)
    (NostrEvent.tags event) (NostrEvent.content event) (NostrEvent.sig event)
    (getTagValue event "d") (getTagValue event "a")
    (if JS.falsy (getTagValue event "expiration") then None
     else JS.parseInt (default EmptyString (getTagValue event "expiration"))).

(** An event of the declared type [NostrEvent], as the JavaScript value
    that [validateEvent] inspects. *)
Definition event_raw (event : NostrEvent.t) : RawEvent.t :=
  RawEvent.mk (JS.JString (NostrEvent.id event)) (JS.JString (NostrEvent.pubkey event))
    (JS.JNumber (NostrEvent.created_at event)) (JS.JNumber (NostrEvent.kind event))
    (tags_value (NostrEvent.tags event)) (JS.JString (NostrEvent.content event))
    (JS.JString (NostrEvent.sig event)).

(** The steps of [saveEvent], named: its two [DELETE] statements ... *)
Definition supersede (db : Db.t) (event : NostrEvent.t) : Db.t :=
  let same_author (row : EventRow.t) :=
    (EventRow.kind row =? NostrEvent.kind event)
    && bool_decide (EventRow.pubkey row = NostrEvent.pubkey event) in
  let db1 :=
    if isReplaceable (NostrEvent.kind event)
    then delete_events (fun row => same_author row && superseded_by event row) db
    else db in
  match getTagValue event "d" with
  | Some d =>
      if isParameterizedReplaceable (NostrEvent.kind event)
      then delete_events
             (fun row => same_author row
                         && bool_decide (EventRow.d_tag row = Some d)
                         && superseded_by event row) db1
      else db1
  | None => db1
  end.

(** ... and the body of its [try] block after the insert. *)
Definition index_event (db3 : Db.t) (event : NostrEvent.t) : bool * Db.t :=
  match
    (if NostrEvent.kind event =? EVENT_KINDS.CREDENTIAL_GRANT
     then indexCredential db3 event else Some db3)
  with
  | None => (false, db3)
  | Some db4 =>
      let db5 :=
        if NostrEvent.kind event =? EVENT_KINDS.CREDENTIAL_SCHEMA
        then cacheSchema db4 event else db4 in
      let db6 :=
        if NostrEvent.kind event =? EVENT_KINDS.CREDENTIAL_REVOCATION
        then processRevocation db5 event else db5 in
      let db7 :=
        if NostrEvent.kind event =? EVENT_KINDS.CREDENTIAL_RENEWAL
        then processRenewal db6 event else db6 in
      (true, db7)
  end.

(** [getCredentialsByRecipient]: SQL leaves the order of the rows open;
    the model lists them in the order of the index map. *)
Definition getCredentialsByRecipient (db : Db.t) (pubkey : string) : list CredentialRow.t :=
  List.filter (fun row => bool_decide (CredentialRow.recipient row = pubkey))
    (map snd (map_to_list (Db.credentials db))).

(** The store keeps its keys: [id] is the primary key of [events];
    [event_id] is the primary key of [credentials] and refers to a stored
    event; [ref] is the primary key of [schemas]. *)
Definition keys_ok (db : Db.t) : Prop :=
  NoDup (map EventRow.id (Db.events db))
  /\ (forall k row, Db.credentials db !! k = Some row ->
        CredentialRow.event_id row = k
        /\ exists r, r ∈ Db.events db /\ EventRow.id r = k)
  /\ (forall k row, Db.schemas db !! k = Some row -> SchemaRow.ref row = k).

(** Two index rows for the same grant: who, what and by whom agree, and a
    set [revoked] flag stays set. *)
Definition same_grant (row row' : CredentialRow.t) : Prop :=
  CredentialRow.event_id row' = CredentialRow.event_id row
  /\ CredentialRow.schema_ref row' = CredentialRow.schema_ref row
  /\ CredentialRow.class_id row' = CredentialRow.class_id row
  /\ CredentialRow.recipient row' = CredentialRow.recipient row
  /\ CredentialRow.issuer row' = CredentialRow.issuer row
  /\ CredentialRow.issued_at row' = CredentialRow.issued_at row
  /\ CredentialRow.chain_ref row' = CredentialRow.chain_ref row
  /\ (CredentialRow.revoked row <> 0 -> CredentialRow.revoked row' <> 0).

(** An update of the index that adds and removes no row. *)
Definition index_kept (db after : Db.t) : Prop :=
  Db.events after = Db.events db
  /\ Db.schemas after = Db.schemas db
  /\ forall k,
       match getCredential db k, getCredential after k with
       | Some row, Some row' => same_grant row row'
       | None, None => True
       | _, _ => False
       end.

(** A chain of upstream grants, nearest first, that authorises [holder] to
    issue class [classId]: each grant was made out to the author of the
    grant below it, for a class that is allowed to issue the class below
    and has it in its scope; the last one is written by the root for a
    class that the root may issue. *)
Fixpoint authorised (schema : CredentialSchema.t) (rootPubkey : string)
    (holder classId : string) (allowedIssuers : list string)
    (grants : list NostrEvent.t) : Prop :=
  match grants with
  | [] => False
  | U :: rest =>
      getTagValue U "p" = Some holder
      /\ exists issuerClassId issuerClassDef,
           getTagValue U "class" = Some issuerClassId
           /\ issuerClassId ∈ allowedIssuers
           /\ CredentialSchema.classes schema !! issuerClassId = Some issuerClassDef
           /\ classId ∈ CredentialClass.scope issuerClassDef
           /\ match rest with
              | [] =>
                  "root" ∈ CredentialClass.issued_by issuerClassDef
                  /\ NostrEvent.pubkey U = rootPubkey
              | _ :: _ =>
                  authorised schema rootPubkey (NostrEvent.pubkey U) issuerClassId
                    (CredentialClass.issued_by issuerClassDef) rest
              end
  end.

(** The filter of [findCredentialEvent] selects the stored grants of an
    author at a [d] tag that have not lapsed. *)
Definition current_grant (wall : Z) (pubkey dTag : string) (row : EventRow.t) : Prop :=
  EventRow.kind row = EVENT_KINDS.CREDENTIAL_GRANT
  /\ EventRow.pubkey row = pubkey
  /\ EventRow.d_tag row = Some dTag
  /\ forall e, EventRow.expires_at row = Some e -> wall < e.

(** The tags that make [handleDeletion] delete a row. *)
Definition deletes (pubkey : string) (tags : list (list string)) (row : EventRow.t) : Prop :=
  EventRow.pubkey row = pubkey
  /\ EventRow.id row <> EmptyString
  /\ exists tag, tag ∈ tags /\ tag !! 0%nat = Some "e" /\ tag !! 1%nat = Some (EventRow.id row).

(** The text of a string has no colon. *)
Fixpoint colon_free (s : string) : Prop :=
  match s with
  | EmptyString => True
  | String a rest => a <> ":"%char /\ colon_free rest
  end.

(** Rows in [ORDER BY created_at DESC] order. *)
Fixpoint newest_first (rows : list Z) : Prop :=
  match rows with
  | [] => True
  | x :: rest => Forall (fun y => y <= x) rest /\ newest_first rest
  end.

Definition status_name (result : VerificationResult) : string :=
  match result with
  | VALID _ => "VALID"
  | INVALID _ => "INVALID"
  | EXPIRED _ => "EXPIRED"
  | REVOKED _ _ => "REVOKED"
  end.

(** The [OK] message of the relay. *)
Module Ok.
Record t : Type := mk {
  event_id : string;
  accepted : bool;
  message : string;
}.
End Ok.

Section Admission.
Context {rt : Runtime}.

(** [validateCredentialGrant] of the verifier. *)
Definition validateCredentialGrant (db : Db.t) (event : NostrEvent.t) : Validation.t :=
  let schemaRef := getTagValue event "a" in
  let classId := getTagValue event "class" in
  let recipient := getTagValue event "p" in
  let issuedStr := getTagValue event "issued" in
  let expiresStr := getTagValue event "expires" in
  let dTag := getTagValue event "d" in
  if JS.falsy schemaRef then Validation.fail "missing schema reference (a tag)"
  else if JS.falsy classId then Validation.fail "missing class tag"
  else if JS.falsy recipient then Validation.fail "missing recipient (p tag)"
  else if JS.falsy issuedStr then Validation.fail "missing issued tag"
  else if JS.falsy expiresStr then Validation.fail "missing expires tag"
  else if JS.falsy dTag then Validation.fail "missing d tag"
  else
  match CredentialVerifier.getSchema db (default EmptyString schemaRef) with
  | None => Validation.fail "schema not found"
  | Some schema =>
  match CredentialSchema.classes schema !! default EmptyString classId with
  | None =>
      Validation.fail ("class '" +:+ default EmptyString classId +:+ "' not found in schema")
  | Some classDef =>
  let max_days := CredentialClass.max_days (CredentialClass.expiry classDef) in
  if negb (bool_decide (expiresStr = Some "perpetual"))
  then
    let expiresAt := JS.parseInt (default EmptyString expiresStr) in
    let issuedAt := JS.parseInt (default EmptyString issuedStr) in
    match expiresAt, issuedAt with
    | None, _ => Validation.fail "invalid expires timestamp"
    | Some _, None => Validation.fail "invalid issued timestamp"
    | Some expires, Some issued =>
        match max_days with
        | Some days =>
            let maxExpiry := issued + days * 86400 in
            if maxExpiry <? expires
            then Validation.fail
                   ("expires exceeds max_days (" +:+ number_toString days +:+ ")")
            else Validation.ok
        | None => Validation.ok
        end
    end
  else
    match max_days with
    | Some _ => Validation.fail "perpetual not allowed for this class"
    | None => Validation.ok
    end
  end end.

End Admission.

(** ** The relay front-end ([relay.ts]) *)

(** [matchesFilter], the test that [broadcast] applies to a new event. *)
Definition matchesFilter (event : NostrEvent.t) (filter : Filter.t) : bool :=
  if given (Filter.ids filter)
     && negb (bool_decide (NostrEvent.id event ∈ default [] (Filter.ids filter)))
  then false
  else if given (Filter.authors filter)
     && negb (bool_decide (NostrEvent.pubkey event ∈ default [] (Filter.authors filter)))
  then false
  else if given (Filter.kinds filter)
     && negb (bool_decide (NostrEvent.kind event ∈ default [] (Filter.kinds filter)))
  then false
  else if match Filter.since filter with
          | Some since => NostrEvent.created_at event <? since
          | None => false
          end
  then false
  else if match Filter.until filter with
          | Some until => until <? NostrEvent.created_at event
          | None => false
          end
  then false
  else if given (Filter.tag_e filter)
     && negb (existsb
                (fun e => bool_decide
                            (Some e ∈ map (fun t : list string => t !! 1%nat)
                                        (List.filter
                                           (fun t : list string =>
                                              bool_decide (t !! 0%nat = Some "e"))
                                           (NostrEvent.tags event))))
                (default [] (Filter.tag_e filter)))
  then false
  else if given (Filter.tag_p filter)
     && negb (existsb
                (fun p => bool_decide
                            (Some p ∈ map (fun t : list string => t !! 1%nat)
                                        (List.filter
                                           (fun t : list string =>
                                              bool_decide (t !! 0%nat = Some "p"))
                                           (NostrEvent.tags event))))
                (default [] (Filter.tag_p filter)))
  then false
  else if given (Filter.tag_a filter)
     && (JS.falsy (getTagValue event "a")
         || negb (JS.includes (default [] (Filter.tag_a filter))
                    (default EmptyString (getTagValue event "a"))))
  then false
  else if given (Filter.tag_d filter)
     && (JS.falsy (getTagValue event "d")
         || negb (JS.includes (default [] (Filter.tag_d filter))
                    (default EmptyString (getTagValue event "d"))))
  then false
  else true.

Definition matchesFilters (event : NostrEvent.t) (filters : list Filter.t) : bool :=
  existsb (matchesFilter event) filters.

Section Relay.
Context {rt : Runtime}.

(** [validateSchema] reads the parsed content through property lookups on
    untyped values and is not embedded; [handleEvent] takes its verdict
    as a parameter. *)
Variable validateSchema : NostrEvent.t -> Validation.t.

(** The deletions of a kind 5 event: one [deleteEvent] per [e] tag that
    has a value. *)
Definition handleDeletion (db : Db.t) (event : NostrEvent.t) : Db.t :=
  foldl
    (fun d (tag : list string) =>
       if JS.falsy (tag !! 1%nat) then d
       else snd (deleteEvent d (default EmptyString (tag !! 1%nat)) (NostrEvent.pubkey event)))
    db
    (List.filter (fun t : list string => bool_decide (t !! 0%nat = Some "e"))
       (NostrEvent.tags event)).

(** [handleEvent] on an event of the declared type: the [OK] message it
    sends and the store it leaves.  [verify] is called with its default
    [now], the wall clock. *)
Definition handleEvent (db : Db.t) (wall : Z) (event : NostrEvent.t) : Ok.t * Db.t :=
  let reject (why : string) := (Ok.mk (NostrEvent.id event) false why, db) in
  let validation := validateEvent (event_raw event) in
  if negb (Validation.valid validation)
  then reject ("invalid: " +:+ default "undefined" (Validation.reason validation))
  else
  if (NostrEvent.kind event =? EVENT_KINDS.CREDENTIAL_SCHEMA)
     && negb (Validation.valid (validateSchema event))
  then reject ("invalid: " +:+ default "undefined" (Validation.reason (validateSchema event)))
  else
  if (NostrEvent.kind event =? EVENT_KINDS.CREDENTIAL_GRANT)
     && negb (Validation.valid (validateCredentialGrant db event))
  then reject ("invalid: "
               +:+ default "undefined" (Validation.reason (validateCredentialGrant db event)))
  else
  match
    (if NostrEvent.kind event =? EVENT_KINDS.CREDENTIAL_GRANT
     then match CredentialVerifier.verify db wall event wall with
          | Some (VALID _) => None
          | Some other => Some (status_name other)
          | None => Some EmptyString
          end
     else None)
  with
  | Some status => reject ("invalid: credential verification failed - " +:+ status)
  | None =>
  let db1 := if NostrEvent.kind event =? 5 then handleDeletion db event else db in
  let saved := saveEvent db1 event in
  if fst saved
  then (Ok.mk (NostrEvent.id event) true EmptyString, snd saved)
  else (Ok.mk (NostrEvent.id event) false "error: could not save event", snd saved)
  end.

(** The inner loop of [handleReq] over the results of one filter: the ids
    seen so far and the events sent so far. *)
Definition req_step (state : list string * list NostrEvent.t) (events : list NostrEvent.t)
  : list string * list NostrEvent.t :=
  foldl
    (fun (st : list string * list NostrEvent.t) event =>
       if bool_decide (NostrEvent.id event ∈ fst st) then st
       else (NostrEvent.id event :: fst st, (snd st ++ [event])%list))
    state events.

(** [handleReq]: the stored events sent for a subscription, in the order
    sent. *)
Definition handleReq (db : Db.t) (wall : Z) (filters : list Filter.t) : list NostrEvent.t :=
  snd (foldl (fun state filter => req_step state (queryEvents db wall filter))
         ([], []) filters).

(** What the loops of [handleReq] keep: the ids seen are those of the
    events sent, no id twice, out of the query results [sent] so far, all
    of whose ids are seen. *)
Definition req_ok (sent : list NostrEvent.t) (state : list string * list NostrEvent.t) : Prop :=
  NoDup (fst state)
  /\ (forall i, i ∈ fst state <-> i ∈ map NostrEvent.id (snd state))
  /\ NoDup (map NostrEvent.id (snd state))
  /\ (forall e, e ∈ snd state -> e ∈ sent)
  /\ (forall e, e ∈ sent -> NostrEvent.id e ∈ fst state).

End Relay.

(** ** Events for the examples of the relay *)

Module Example.

(** An event under the id and with a signature that [Sample.runtime]
    accepts. *)
Definition signed (event : NostrEvent.t) : NostrEvent.t :=
  NostrEvent.mk (Sample.key "0") (NostrEvent.pubkey event) (NostrEvent.created_at event)
    (NostrEvent.kind event) (NostrEvent.tags event) (NostrEvent.content event)
    (Sample.key "5" +:+ Sample.key "5").

(** The store after the schema event. *)
Definition with_schema : Db.t := saveEvents Db.empty [Sample.schema_event].

(** Root makes dana a director for good; the [issued] tag is not a number. *)
Definition undated_director : NostrEvent.t :=
  signed (Sample.grant EmptyString Sample.root Sample.dana "dir-7" "director"
            "soon" "perpetual" []).

(** Root makes dana a director from 1000 to 2000. *)
Definition director : NostrEvent.t := signed Sample.director_grant.

(** The store after the schema, the grant [director] and mallory's
    revocation of it. *)
Definition with_revoked_director : Db.t :=
  saveEvents Db.empty
    [Sample.schema_event; director;
     NostrEvent.mk (Sample.key "7") Sample.mallory 1500 EVENT_KINDS.CREDENTIAL_REVOCATION
       [["a"; "30301:" +:+ Sample.root +:+ ":" +:+ Sample.key "0"]] EmptyString "sig"].

(** Dana's note, and her request to delete it together with a note of
    erin's. *)
Definition note (id author : string) : NostrEvent.t :=
  NostrEvent.mk id author 100 EVENT_KINDS.TEXT_NOTE [] "hello" "sig".

Definition deletion : NostrEvent.t :=
  signed (NostrEvent.mk EmptyString Sample.dana 200 EVENT_KINDS.DELETE
            [["e"; Sample.key "2"]; ["e"; Sample.key "3"]] EmptyString EmptyString).

Definition with_notes : Db.t :=
  saveEvents Db.empty [note (Sample.key "2") Sample.dana; note (Sample.key "3") Sample.erin].

(** The verdict of a schema validator that accepts every event. *)
Definition any_schema (event : NostrEvent.t) : Validation.t := Validation.ok.

End Example.

(** * Results *)

(** Case analysis along the branches of a function body. *)
Ltac walk_cases := repeat (case_match; simplify_eq).

(** Instantiates an induction hypothesis at the recursive call of the walk. *)
Ltac use_walk_IH IH :=
  match goal with
  | H : CredentialVerifier.verifyChain_rec _ ?a ?b ?c ?d ?e ?f ?g ?h ?i ?j ?k = _ |- _ =>
      pose proof (IH a b c d e f g h i j k) as IHwalk
  end.

(** ** The chain walk: termination, fuel and what a result implies *)

Section Walk.
Context {rt : Runtime}.

(** Past depth 5 the walk stops at once, on any fuel. *)
Lemma verifyChain_rec_too_deep fuel db wall ip ci cc al cr sc rp now depth :
  5 < depth ->
  CredentialVerifier.verifyChain_rec fuel db wall ip ci cc al cr sc rp now depth
  = Some (INVALID "chain too deep (max 5)", []).
Proof.
  intros H. apply Z.ltb_lt in H.
  destruct fuel; cbn [CredentialVerifier.verifyChain_rec]; rewrite H; reflexivity.
Qed.

(** With fuel for the remaining depth the walk returns, after at most
    [6 - depth] lookups. *)
Lemma verifyChain_rec_total fuel : forall db wall ip ci cc al cr sc rp now depth,
  6 - depth <= Z.of_nat fuel ->
  exists r log,
    CredentialVerifier.verifyChain_rec fuel db wall ip ci cc al cr sc rp now depth = Some (r, log)
    /\ Z.of_nat (length log) <= Z.max 0 (6 - depth).
Proof.
  induction fuel as [|fuel IH]; intros db wall ip ci cc al cr sc rp now depth Hfuel.
  - rewrite verifyChain_rec_too_deep by lia. eexists _, _. split; [reflexivity|]. simpl. lia.
  - destruct (Z.ltb_spec 5 depth) as [Hd|Hd].
    + rewrite verifyChain_rec_too_deep by lia. eexists _, _. split; [reflexivity|]. simpl. lia.
    + cbn [CredentialVerifier.verifyChain_rec].
      replace (5 <? depth) with false by (symmetry; apply Z.ltb_ge; lia).
      walk_cases;
        try (eexists _, _; split; [reflexivity | cbn [length]; lia]).
      all: use_walk_IH IH; destruct IHwalk as (r' & log' & Heq & Hlen); [lia|].
      all: simplify_eq.
      all: eexists _, _; split; [reflexivity | rewrite length_app; cbn [length]; lia].
Qed.

(** A result is kept when fuel is added. *)
Lemma verifyChain_rec_more_fuel fuel : forall db wall ip ci cc al cr sc rp now depth res,
  CredentialVerifier.verifyChain_rec fuel db wall ip ci cc al cr sc rp now depth = Some res ->
  CredentialVerifier.verifyChain_rec (S fuel) db wall ip ci cc al cr sc rp now depth = Some res.
Proof.
  induction fuel as [|fuel IH]; intros db wall ip ci cc al cr sc rp now depth res H.
  - cbn [CredentialVerifier.verifyChain_rec] in H.
    destruct (Z.ltb_spec 5 depth); [|discriminate].
    rewrite verifyChain_rec_too_deep by lia. exact H.
  - remember (S fuel) as fuel1 eqn:Hfuel1 in |- *.
    cbn [CredentialVerifier.verifyChain_rec] in H |- *.
    walk_cases; try reflexivity.
    all: use_walk_IH IH; erewrite IHwalk in *; [|eassumption]; simplify_eq.
    all: reflexivity.
Qed.

Lemma verifyChain_rec_fuel_le fuel fuel' db wall ip ci cc al cr sc rp now depth res :
  (fuel <= fuel')%nat ->
  CredentialVerifier.verifyChain_rec fuel db wall ip ci cc al cr sc rp now depth = Some res ->
  CredentialVerifier.verifyChain_rec fuel' db wall ip ci cc al cr sc rp now depth = Some res.
Proof.
  induction 1 as [|fuel' _ IH]; [done|].
  intros H. apply verifyChain_rec_more_fuel, IH, H.
Qed.

(** Any sufficient fuel computes the result of [verifyChain_traced]. *)
Lemma verifyChain_rec_enough_fuel fuel db wall ip ci cc al cr sc rp now depth :
  6 - depth <= Z.of_nat fuel ->
  CredentialVerifier.verifyChain_rec fuel db wall ip ci cc al cr sc rp now depth
  = CredentialVerifier.verifyChain_traced db wall ip ci cc al cr sc rp now depth.
Proof.
  intros Hfuel. unfold CredentialVerifier.verifyChain_traced.
  destruct (verifyChain_rec_total (Z.to_nat (6 - depth)) db wall ip ci cc al cr sc rp now depth)
    as (r & log & Heq & _); [lia|].
  rewrite Heq. eapply verifyChain_rec_fuel_le; [|exact Heq]. lia.
Qed.

(** Step (b) of the walk as the code has it: a chain reference that parses
    is rejected exactly on a kind other than 30301. *)
Lemma verifyChain_traced_other_kind db wall ip ci cc al cr sc rp now depth info :
  depth <= 5 ->
  parseATag cr = Some info ->
  ATag.kind info <> 30301 ->
  CredentialVerifier.verifyChain_traced db wall ip ci cc al cr sc rp now depth
  = Some (INVALID "invalid chain reference", []).
Proof.
  intros Hdepth Hparse Hkind. unfold CredentialVerifier.verifyChain_traced.
  destruct (Z.to_nat (6 - depth)) as [|fuel] eqn:Hfuel; [lia|].
  cbn [CredentialVerifier.verifyChain_rec].
  replace (5 <? depth) with false by (symmetry; apply Z.ltb_ge; lia).
  rewrite Hparse. destruct (Z.eqb_spec (ATag.kind info) 30301); [contradiction|reflexivity].
Qed.

(** The issuance time the walk passes down is [issued_of] the grant. *)
Lemma issued_of_default (U : NostrEvent.t) :
  JS.falsy (getTagValue U "issued") = false ->
  JS.parseInt (default EmptyString (getTagValue U "issued")) = issued_of U.
Proof.
  unfold issued_of. destruct (getTagValue U "issued"); [reflexivity | discriminate].
Qed.

(** What a failed [>] and a failed [<] say about numbers that are not
    [NaN]. *)
Lemma gt_false_le (a b : JS.num) (u c : Z) :
  JS.gt a b = false -> a = Some u -> b = Some c -> u <= c.
Proof. intros H -> ->. cbn in H. lia. Qed.

Lemma lt_false_le (e : Z) (b : JS.num) (c : Z) :
  JS.lt (Some e) b = false -> b = Some c -> c <= e.
Proof. intros H ->. cbn in H. lia. Qed.

(** A VALID walk: its log is linked, every lookup found a grant that
    passed the checks of step (h), and the depth reported is the number of
    lookups made. *)
Lemma verifyChain_rec_valid fuel : forall db wall ip ci cc al cr sc rp now depth n log,
  CredentialVerifier.verifyChain_rec fuel db wall ip ci cc al cr sc rp now depth
    = Some (VALID n, log) ->
  linked ci log
  /\ Forall authority_at_issuance log
  /\ Forall (fun l => is_Some (Lookup.upstream l)) log
  /\ n = depth + Z.of_nat (length log) - 1
  /\ (1 <= length log)%nat.
Proof.
  induction fuel as [|fuel IH]; intros db wall ip ci cc al cr sc rp now depth n log H;
    cbn [CredentialVerifier.verifyChain_rec] in H; walk_cases.
  all: try use_walk_IH IH.
  all: try (edestruct IHwalk as (Hl & Ha & Hs & Hn & Hne); [eassumption|]).
  all: repeat match goal with
         | H : JS.falsy (getTagValue _ "issued") = false |- _ =>
             rewrite (issued_of_default _ H) in *; clear H
         end.
  all: match goal with
       | |- context [Lookup.mk ?c (Some ?U)] =>
           assert (authority_at_issuance (Lookup.mk c (Some U))) as Hauth
             by (split; cbn [Lookup.upstream Lookup.child_issued];
                 [ intros u c' Hu Hc; eapply gt_false_le; eauto
                 | intros e c' He Hc; simplify_eq; eapply lt_false_le; eauto ])
       end.
  all: cbn [app linked Lookup.upstream Lookup.child_issued length].
  all: repeat split; auto; try lia.
  all: try (rewrite Hn; lia).
Qed.

(** The walk returns VALID or INVALID only. *)
Lemma verifyChain_rec_status fuel : forall db wall ip ci cc al cr sc rp now depth r log,
  CredentialVerifier.verifyChain_rec fuel db wall ip ci cc al cr sc rp now depth = Some (r, log) ->
  (exists n, r = VALID n) \/ (exists why, r = INVALID why).
Proof.
  induction fuel as [|fuel IH]; intros db wall ip ci cc al cr sc rp now depth r log H;
    cbn [CredentialVerifier.verifyChain_rec] in H; walk_cases; eauto.
Qed.

(** A walk that ends with the expired-at-issuance reason ends on a grant
    whose numeric expiry is not null and lies before the issuance of the
    grant below it. *)
Lemma verifyChain_rec_expired_at_issuance fuel :
  forall db wall ip ci cc al cr sc rp now depth log,
  CredentialVerifier.verifyChain_rec fuel db wall ip ci cc al cr sc rp now depth
    = Some (INVALID "issuer credential was expired at issuance time", log) ->
  exists entry U e,
    last log = Some entry
    /\ Lookup.upstream entry = Some U
    /\ expiresNumeric (getTagValue U "expires") = Some e
    /\ JS.lt (Some e) (Lookup.child_issued entry) = true.
Proof.
  induction fuel as [|fuel IH]; intros db wall ip ci cc al cr sc rp now depth log H;
    cbn [CredentialVerifier.verifyChain_rec] in H; walk_cases.
  all: try (cbn in *; discriminate).
  all: try use_walk_IH IH.
  all: try (edestruct IHwalk as (entry & U & e & Hlast & Hup & Hexp & Hlt); [eassumption|];
            exists entry, U, e; cbn [app]; rewrite last_cons, Hlast; auto).
  eexists _, _, _. split; [reflexivity|]. split; [reflexivity|]. split; eassumption.
Qed.

(** An [expires] tag that does not parse as a nonzero integer has a null
    numeric expiry. *)
Lemma expiresNumeric_unparsable (s : string) :
  (forall z, JS.parseInt s = Some z -> z = 0) ->
  expiresNumeric (Some s) = None.
Proof.
  intros H. unfold expiresNumeric. case_bool_decide; [reflexivity|].
  change (default "0" (Some s)) with s. destruct (JS.parseInt s) as [z|] eqn:Hz; [|reflexivity].
  rewrite (H z eq_refl). reflexivity.
Qed.

(** What [indexCredential] stores for the grant it indexes. *)
Lemma indexCredential_expires (db db' : Db.t) (g : NostrEvent.t) :
  indexCredential db g = Some db' ->
  db' = db
  \/ exists row,
       Db.credentials db' !! NostrEvent.id g = Some row
       /\ CredentialRow.expires_at row = expiresNumeric (getTagValue g "expires")
       /\ CredentialRow.revoked row = 0.
Proof.
  unfold indexCredential. intros H. walk_cases; [left; reflexivity|].
  right. eexists. cbn [Db.credentials]. rewrite lookup_insert_eq. eauto.
Qed.

(** Where the timestamp of an EXPIRED result comes from. *)
Lemma verify_traced_expired db wall g now e log :
  CredentialVerifier.verify_traced db wall g now = Some (EXPIRED e, log) ->
  (getCredential db (NostrEvent.id g) ≫= CredentialRow.expires_at = Some e
   \/ (getCredential db (NostrEvent.id g) ≫= CredentialRow.expires_at = None
       /\ expiresNumeric (getTagValue g "expires") = Some e))
  /\ e < now.
Proof.
  unfold CredentialVerifier.verify_traced, CredentialVerifier.verifyChain_traced.
  intros H. walk_cases.
  all: try match goal with
       | H : CredentialVerifier.verifyChain_rec _ _ _ _ _ _ _ _ _ _ _ _ = Some (EXPIRED _, _) |- _ =>
           apply verifyChain_rec_status in H; destruct H as [[? ?]|[? ?]]; discriminate
       end.
  all: match goal with
       | H : _ ≫= (fun _ => if _ <? ?t then _ else _) = Some _ |- _ =>
           apply bind_Some in H; destruct H as (e' & He' & Hlt);
           destruct (Z.ltb_spec e' t); simplify_eq
       end.
  all: split; [auto | lia].
Qed.

End Walk.

(** ** Revocation *)

Section Revocation.
Context {rt : Runtime}.


End Revocation.

(** ** The store: what [saveEvent] keeps and where it files schemas *)

(** The statements on [events] leave the schema cache alone. *)
Lemma delete_events_schemas cond db : Db.schemas (delete_events cond db) = Db.schemas db.
Proof. reflexivity. Qed.

Lemma insert_or_ignore_event_schemas row db :
  Db.schemas (insert_or_ignore_event row db) = Db.schemas db.
Proof. unfold insert_or_ignore_event. case_match; reflexivity. Qed.

(** A Schema Definition event of the configured kind is accepted, and the
    cache it leaves is the one [cacheSchema] computes. *)
Lemma saveEvent_schema_event db ev :
  NostrEvent.kind ev = EVENT_KINDS.CREDENTIAL_SCHEMA ->
  fst (saveEvent db ev) = true
  /\ forall ref,
       getSchema (snd (saveEvent db ev)) ref
       = getSchema (cacheSchema db ev) ref.
Proof.
  intros Hkind. unfold saveEvent. rewrite Hkind.
  change (EVENT_KINDS.CREDENTIAL_SCHEMA =? EVENT_KINDS.CREDENTIAL_GRANT) with false.
  change (EVENT_KINDS.CREDENTIAL_SCHEMA =? EVENT_KINDS.CREDENTIAL_SCHEMA) with true.
  change (EVENT_KINDS.CREDENTIAL_SCHEMA =? EVENT_KINDS.CREDENTIAL_REVOCATION) with false.
  change (EVENT_KINDS.CREDENTIAL_SCHEMA =? EVENT_KINDS.CREDENTIAL_RENEWAL) with false.
  change (isReplaceable EVENT_KINDS.CREDENTIAL_SCHEMA) with false.
  change (isParameterizedReplaceable EVENT_KINDS.CREDENTIAL_SCHEMA) with true.
  cbv zeta. cbn [fst snd]. split; [reflexivity|].
  intros ref. unfold getSchema, cacheSchema.
  destruct (getTagValue ev "d") as [d|]; cbn [JS.falsy];
    repeat case_match; cbn [Db.schemas];
    rewrite ?insert_or_ignore_event_schemas, ?delete_events_schemas; reflexivity.
Qed.

(** Saving a Schema Definition event does not change the cache at any
    address that starts with the configured schema kind. *)
Lemma saveEvent_leaves_configured_addresses db ev rest :
  NostrEvent.kind ev = EVENT_KINDS.CREDENTIAL_SCHEMA ->
  getSchema (snd (saveEvent db ev)) ("30100:" +:+ rest) = getSchema db ("30100:" +:+ rest).
Proof.
  intros Hkind. rewrite (proj2 (saveEvent_schema_event db ev Hkind)).
  unfold getSchema, cacheSchema. case_match; [reflexivity|].
  cbn [Db.schemas]. apply lookup_insert_ne. cbn. intros [=].
Qed.

(** Rows that a [DELETE] does not select, and rows present before an
    insert, stay. *)
Lemma delete_events_keeps cond db row :
  row ∈ Db.events db -> cond row = false -> row ∈ Db.events (delete_events cond db).
Proof.
  intros Hin Hcond. cbn [delete_events Db.events].
  apply list_elem_of_In, filter_In. split; [apply list_elem_of_In, Hin|].
  rewrite Hcond. reflexivity.
Qed.

Lemma insert_or_ignore_event_keeps new db row :
  row ∈ Db.events db -> row ∈ Db.events (insert_or_ignore_event new db).
Proof.
  intros Hin. unfold insert_or_ignore_event. case_match; [exact Hin|].
  cbn [Db.events]. apply elem_of_app. left. exact Hin.
Qed.

(** After the insert a row with the id of the incoming event is stored. *)
Lemma insert_or_ignore_event_stores new db :
  exists row, row ∈ Db.events (insert_or_ignore_event new db)
              /\ EventRow.id row = EventRow.id new.
Proof.
  unfold insert_or_ignore_event.
  destruct (existsb _ _) eqn:Hex.
  - apply existsb_exists in Hex. destruct Hex as (r & Hin & Heq).
    exists r. split; [apply list_elem_of_In, Hin|]. apply bool_decide_eq_true in Heq. exact Heq.
  - exists new. split; [|reflexivity]. cbn [Db.events]. apply elem_of_app. right.
    apply list_elem_of_singleton. reflexivity.
Qed.

(** The index and cache updates do not touch [events]. *)
Lemma indexCredential_events db db' ev :
  indexCredential db ev = Some db' -> Db.events db' = Db.events db.
Proof. unfold indexCredential. intros H. repeat (case_match; simplify_eq); reflexivity. Qed.

Lemma cacheSchema_events db ev : Db.events (cacheSchema db ev) = Db.events db.
Proof. unfold cacheSchema. case_match; reflexivity. Qed.

Lemma processRevocation_events db ev : Db.events (processRevocation db ev) = Db.events db.
Proof. unfold processRevocation. repeat case_match; reflexivity. Qed.

Lemma processRenewal_events db ev : Db.events (processRenewal db ev) = Db.events db.
Proof. unfold processRenewal. repeat case_match; reflexivity. Qed.

(** A stored row that the incoming event does not supersede is still
    stored after [saveEvent] ... *)
Lemma saveEvent_keeps_newer db ev row :
  row ∈ Db.events db ->
  superseded_by ev row = false ->
  row ∈ Db.events (snd (saveEvent db ev)).
Proof.
  intros Hin Hnewer. unfold saveEvent. cbv zeta.
  set (db1 := if isReplaceable _ then _ else db).
  set (db2 := match getTagValue ev "d" with Some _ => _ | None => _ end).
  set (db3 := insert_or_ignore_event _ db2).
  assert (row ∈ Db.events db1) as H1.
  { subst db1. case_match; [|exact Hin]. apply delete_events_keeps; [exact Hin|].
    rewrite Hnewer. apply andb_false_r. }
  assert (row ∈ Db.events db2) as H2.
  { subst db2. repeat case_match; try exact H1. apply delete_events_keeps; [exact H1|].
    rewrite Hnewer. apply andb_false_r. }
  assert (row ∈ Db.events db3) as H3 by (apply insert_or_ignore_event_keeps, H2).
  clearbody db3. clear - H3.
  repeat (case_match; simplify_eq); cbn [snd];
    rewrite ?processRenewal_events, ?processRevocation_events, ?cacheSchema_events;
    try (erewrite indexCredential_events by eassumption); exact H3.
Qed.

(** ... and so is a row with the id of the incoming event, whether or not
    a newer version is stored. *)
Lemma saveEvent_stores db ev :
  exists row, row ∈ Db.events (snd (saveEvent db ev))
              /\ EventRow.id row = NostrEvent.id ev.
Proof.
  unfold saveEvent. cbv zeta.
  set (db2 := match getTagValue ev "d" with Some _ => _ | None => _ end).
  destruct (insert_or_ignore_event_stores
              (EventRow.mk (NostrEvent.id ev) (NostrEvent.pubkey ev)
                 (NostrEvent.created_at ev) (NostrEvent.kind ev)
                 (NostrEvent.tags ev) (NostrEvent.content ev)
                 (NostrEvent.sig ev) (getTagValue ev "d") (getTagValue ev "a")
                 (if JS.falsy (getTagValue ev "expiration") then None
                  else JS.parseInt (default EmptyString (getTagValue ev "expiration")))) db2)
    as (row & Hin & Hid).
  exists row. split; [|exact Hid].
  set (db3 := insert_or_ignore_event _ db2) in *.
  clearbody db3. clear - Hin.
  repeat (case_match; simplify_eq); cbn [snd];
    rewrite ?processRenewal_events, ?processRevocation_events, ?cacheSchema_events;
    try (erewrite indexCredential_events by eassumption); exact Hin.
Qed.

(** The row that [indexCredential] writes when the [a], [class] and [p]
    tags are not empty and the [issued] tag reads as an integer. *)
Lemma indexCredential_row db g a c p i issued :
  getTagValue g "a" = Some a -> a <> EmptyString ->
  getTagValue g "class" = Some c -> c <> EmptyString ->
  getTagValue g "p" = Some p -> p <> EmptyString ->
  getTagValue g "issued" = Some i ->
  JS.parseInt i = Some issued ->
  indexCredential db g
  = Some (Db.mk (Db.events db)
            (<[NostrEvent.id g :=
                 CredentialRow.mk (NostrEvent.id g) a c p (NostrEvent.pubkey g) issued
                   (expiresNumeric (getTagValue g "expires")) (getTagValue g "chain")
                   0 None None]> (Db.credentials db))
            (Db.schemas db)).
Proof.
  intros Ha Hane Hc Hcne Hp Hpne Hi Hparse.
  assert (i <> EmptyString) as Hine by (intros ->; vm_compute in Hparse; discriminate).
  assert (forall s, s <> EmptyString -> JS.falsy (Some s) = false) as Hfalsy
    by (intros [|? ?] Hs; [congruence | reflexivity]).
  unfold indexCredential. cbv zeta.
  rewrite Ha, Hc, Hp, Hi, !Hfalsy by assumption. cbn [orb].
  change (default EmptyString (Some i)) with i. rewrite Hparse. reflexivity.
Qed.

(** [saveEvent] of such a grant files that row under the id of the grant. *)
Lemma saveEvent_grant_row db g a c p i issued :
  NostrEvent.kind g = EVENT_KINDS.CREDENTIAL_GRANT ->
  getTagValue g "a" = Some a -> a <> EmptyString ->
  getTagValue g "class" = Some c -> c <> EmptyString ->
  getTagValue g "p" = Some p -> p <> EmptyString ->
  getTagValue g "issued" = Some i ->
  JS.parseInt i = Some issued ->
  fst (saveEvent db g) = true
  /\ getCredential (snd (saveEvent db g)) (NostrEvent.id g)
     = Some (CredentialRow.mk (NostrEvent.id g) a c p (NostrEvent.pubkey g) issued
               (expiresNumeric (getTagValue g "expires")) (getTagValue g "chain")
               0 None None).
Proof.
  intros Hkind Ha Hane Hc Hcne Hp Hpne Hi Hparse.
  unfold saveEvent. cbv zeta. rewrite Hkind.
  change (EVENT_KINDS.CREDENTIAL_GRANT =? EVENT_KINDS.CREDENTIAL_GRANT) with true.
  change (EVENT_KINDS.CREDENTIAL_GRANT =? EVENT_KINDS.CREDENTIAL_SCHEMA) with false.
  change (EVENT_KINDS.CREDENTIAL_GRANT =? EVENT_KINDS.CREDENTIAL_REVOCATION) with false.
  change (EVENT_KINDS.CREDENTIAL_GRANT =? EVENT_KINDS.CREDENTIAL_RENEWAL) with false.
  cbv iota.
  match goal with
  | |- context [indexCredential ?d g] =>
      rewrite (indexCredential_row d g a c p i issued) by assumption
  end.
  cbn [fst snd]. split; [reflexivity|].
  unfold getCredential. cbn [Db.credentials]. apply lookup_insert_eq.
Qed.

(** ** The claims of the specification *)

(** C1.  The chain walk compares the kind of the chain reference with the
    literal 30301, not with the configured credential-grant kind
    [EVENT_KINDS.CREDENTIAL_GRANT] = 30101: whatever the store holds, a
    chain reference whose kind component is the configured kind is rejected
    with "invalid chain reference" before any lookup, and a reference of
    kind 30301, which differs from the configured kind, passes that step
    (it fails later, on the lookup in the empty store). *)
Theorem C1_configured_grant_kind_is_rejected :
  forall (rt : Runtime) (db : Db.t) (wall now : Z) (schema : CredentialSchema.t),
    (ATag.kind <$> parseATag ("30101:" +:+ Sample.root +:+ ":dir-1"))
      = Some EVENT_KINDS.CREDENTIAL_GRANT
    /\ CredentialVerifier.verifyChain_traced db wall Sample.dana (Some 100) "instructor"
         ["director"] ("30101:" +:+ Sample.root +:+ ":dir-1") schema Sample.root now 1
       = Some (INVALID "invalid chain reference", [])
    /\ CredentialVerifier.verifyChain_traced Db.empty wall Sample.dana (Some 100) "instructor"
         ["director"] ("30301:" +:+ Sample.root +:+ ":dir-1") schema Sample.root now 1
       = Some (INVALID "issuer credential not found", [Lookup.mk (Some 100) None]).
Proof.
  intros rt db wall now schema. repeat split; vm_compute; reflexivity.
Qed.

(** C2.  [saveEvent] accepts a Schema Definition event of the configured
    kind (30100) and files its content under the address that starts with
    30300; the address computed from the configured kind is not in the
    cache, so a grant whose [a] tag is that address does not resolve its
    schema. *)
Theorem C2_schema_cached_under_other_kind :
  forall rt : Runtime,
    NostrEvent.kind Sample.schema_event = EVENT_KINDS.CREDENTIAL_SCHEMA
    /\ fst (saveEvent Db.empty Sample.schema_event) = true
    /\ getSchema (snd (saveEvent Db.empty Sample.schema_event)) Sample.configured_ref = None
    /\ CredentialVerifier.getSchema (snd (saveEvent Db.empty Sample.schema_event))
         Sample.configured_ref = None
    /\ SchemaRow.content
         <$> getSchema (snd (saveEvent Db.empty Sample.schema_event)) Sample.cached_ref
       = Some Sample.schema_json.
Proof.
  intros rt. repeat split; vm_compute; reflexivity.
Qed.

(** C3.  After a grant and its revocation have been saved the index row of
    the grant is flagged revoked; saving the same grant event again is
    accepted and re-indexes it with the flag cleared, and the verifier no
    longer reports it revoked. *)
Theorem C3_resubmitted_grant_clears_revoked :
  let revoked := saveEvents Db.empty [Sample.schema_event; Sample.director_grant; Sample.revocation] in
  CredentialRow.revoked <$> getCredential revoked (NostrEvent.id Sample.director_grant) = Some 1
  /\ CredentialVerifier.verify (rt := Sample.runtime) revoked 0 Sample.director_grant 1600
     = Some (REVOKED 1500 "spite")
  /\ fst (saveEvent revoked Sample.director_grant) = true
  /\ CredentialRow.revoked
       <$> getCredential (snd (saveEvent revoked Sample.director_grant))
             (NostrEvent.id Sample.director_grant)
     = Some 0
  /\ CredentialVerifier.verify (rt := Sample.runtime)
       (snd (saveEvent revoked Sample.director_grant)) 0 Sample.director_grant 1600
     = Some (VALID 0).
Proof.
  repeat split; vm_compute; reflexivity.
Qed.

(** C4.  When the newer of two versions of a replaceable event (kind 0,
    same author) is saved first, saving the older one removes nothing and
    inserts it: both versions are returned by [queryEvents]. *)
Theorem C4_older_version_saved_later_is_kept :
  forall (rt : Runtime) (wall : Z),
    isReplaceable (NostrEvent.kind Sample.profile_new) = true
    /\ queryEvents (saveEvents Db.empty [Sample.profile_new; Sample.profile_old]) wall
         (Sample.by_kind_and_author EVENT_KINDS.METADATA Sample.dana)
       = [Sample.profile_new; Sample.profile_old]
    /\ queryEvents (saveEvents Db.empty [Sample.profile_old; Sample.profile_new]) wall
         (Sample.by_kind_and_author EVENT_KINDS.METADATA Sample.dana)
       = [Sample.profile_new].
Proof.
  intros rt wall. repeat split; vm_compute; reflexivity.
Qed.




(** C6.  For every store and every event [verify] returns a result, and
    the chain walk made at most 5 lookups of upstream grants; this holds
    for stores whose chain references form a cycle, the store being
    arbitrary.  At a depth greater than 5 the walk returns INVALID with
    reason "chain too deep (max 5)" without any lookup, whatever fuel it
    runs on; and with fuel of at least 6 - depth the walk computes the
    same result as with exactly that much: its result does not depend on
    the fuel. *)
Theorem C6_chain_walk_is_bounded (rt : Runtime) (db : Db.t) (wall : Z) :
  (forall g now, exists r log,
      CredentialVerifier.verify_traced db wall g now = Some (r, log)
      /\ (length log <= 5)%nat)
  /\ (forall fuel ip ci cc al cr sc rp now depth,
        5 < depth ->
        CredentialVerifier.verifyChain_rec fuel db wall ip ci cc al cr sc rp now depth
        = Some (INVALID "chain too deep (max 5)", []))
  /\ (forall fuel ip ci cc al cr sc rp now depth,
        6 - depth <= Z.of_nat fuel ->
        CredentialVerifier.verifyChain_rec fuel db wall ip ci cc al cr sc rp now depth
        = CredentialVerifier.verifyChain_traced db wall ip ci cc al cr sc rp now depth).
Proof.
  split; [|split].
  - intros g now. unfold CredentialVerifier.verify_traced.
    walk_cases; try (eexists _, _; split; [reflexivity | cbn [length]; lia]).
    all: unfold CredentialVerifier.verifyChain_traced.
    all: match goal with
         | |- context [CredentialVerifier.verifyChain_rec ?fl ?a ?b ?c ?d ?e ?f ?g ?h ?i ?j ?k] =>
             destruct (verifyChain_rec_total fl a b c d e f g h i j k)
               as (r & log & Heq & Hlen); [lia|]
         end.
    all: exists r, log; split; [exact Heq | lia].
  - intros. apply verifyChain_rec_too_deep. assumption.
  - intros. apply verifyChain_rec_enough_fuel. assumption.
Qed.

(** C6, the theorem at a store with a cycle: a grant that names itself as
    its chain reference.  The walk follows the cycle for 5 lookups and
    stops at depth 6. *)
Lemma C6_chain_walk_is_bounded_witness :
  let db := saveEvents Db.empty [Sample.schema_event; Sample.self_issued] in
  let hop := Lookup.mk (Some 100) (Some Sample.self_issued) in
  CredentialVerifier.verify_traced (rt := Sample.runtime) db 0 Sample.self_issued 150
    = Some (INVALID "chain too deep (max 5)", [hop; hop; hop; hop; hop])
  /\ (exists r log,
        CredentialVerifier.verify_traced (rt := Sample.runtime) db 0 Sample.self_issued 150
        = Some (r, log)
        /\ (length log <= 5)%nat)
  /\ 5 < 6
  /\ CredentialVerifier.verifyChain_rec (rt := Sample.runtime) 0 db 0 Sample.dana (Some 100)
       "peer" ["peer"] ("30301:" +:+ Sample.dana +:+ ":loop") Sample.schema
       Sample.root 150 6
     = Some (INVALID "chain too deep (max 5)", []).
Proof.
  intros db hop.
  destruct (C6_chain_walk_is_bounded Sample.runtime db 0) as (Htotal & Hdeep & _).
  split; [vm_compute; reflexivity|].
  split; [apply Htotal|]. split; [lia|]. apply Hdeep. lia.
Defined.




(** C8, counterexample to the claim as stated.  A renewal of a grant whose
    class has [renewable = false] in its schema takes effect: it replaces
    the indexed expiry, and the verifier, which reported the grant EXPIRED,
    reports it VALID. *)
Lemma C8_renewal_of_non_renewable_counterexample :
  let before := saveEvents Db.empty [Sample.schema_event; Sample.director_grant] in
  (CredentialClass.renewable ∘ CredentialClass.expiry
     <$> (CredentialVerifier.getSchema (rt := Sample.runtime) before Sample.cached_ref
            ≫= fun s => CredentialSchema.classes s !! "director"))
    = Some false
  /\ CredentialRow.expires_at <$> getCredential before (NostrEvent.id Sample.director_grant)
     = Some (Some 2000)
  /\ CredentialVerifier.verify (rt := Sample.runtime) before 0 Sample.director_grant 3000
     = Some (EXPIRED 2000)
  /\ fst (saveEvent before Sample.renewal) = true
  /\ CredentialRow.expires_at
       <$> getCredential (snd (saveEvent before Sample.renewal))
             (NostrEvent.id Sample.director_grant)
     = Some (Some 9000)
  /\ CredentialVerifier.verify (rt := Sample.runtime)
       (snd (saveEvent before Sample.renewal)) 0 Sample.director_grant 3000
     = Some (VALID 0).
Proof.
  repeat split; vm_compute; reflexivity.
Qed.

(** C8 (as amended).  A renewal does not take effect on a grant whose index
    row is flagged revoked: [processRenewal] leaves the row, its expiry
    included, as it was.  The schema is not read: on every store and for
    every event, [processRenewal] computes the same credential index
    whatever the schema cache holds. *)
Theorem C8_renewal_skips_revoked_grants (db : Db.t) (event : NostrEvent.t) :
  (forall id row,
      getCredential db id = Some row ->
      CredentialRow.revoked row <> 0 ->
      getCredential (processRenewal db event) id = Some row)
  /\ (forall schemas,
        Db.credentials (processRenewal (with_schemas schemas db) event)
        = Db.credentials (processRenewal db event)).
Proof.
  split.
  - intros id row Hrow Hrevoked.
    unfold getCredential in *. unfold processRenewal. walk_cases; try assumption.
    cbn [Db.credentials]. rewrite lookup_alter.
    destruct (decide _) as [Heq|Hne]; [|exact Hrow]. rewrite Heq, Hrow. cbn.
    unfold set_expires. destruct (Z.eqb_spec (CredentialRow.revoked row) 0);
      [contradiction|reflexivity].
  - intros schemas. unfold processRenewal. walk_cases; reflexivity.
Qed.

(** C8, the theorem at the sample grant after its revocation, where the
    renewal leaves the row alone; and at the grant before any revocation,
    where the renewal sets the expiry to 9000 with the schema cache as it
    is and with the schema cache emptied alike. *)
Lemma C8_renewal_skips_revoked_grants_witness :
  let live := saveEvents Db.empty [Sample.schema_event; Sample.director_grant] in
  let db := saveEvents Db.empty
              [Sample.schema_event; Sample.director_grant; Sample.revocation] in
  let row :=
    CredentialRow.mk (Sample.key "6") Sample.cached_ref "director" Sample.dana Sample.root
      1000 (Some 2000) None 1 (Some 1500) (Some "spite") in
  getCredential db (Sample.key "6") = Some row
  /\ CredentialRow.revoked row <> 0
  /\ getCredential (processRenewal db Sample.renewal) (Sample.key "6") = Some row
  /\ CredentialRow.expires_at
       <$> getCredential (processRenewal live Sample.renewal) (Sample.key "6")
     = Some (Some 9000)
  /\ Db.credentials (processRenewal (with_schemas ∅ live) Sample.renewal)
     = Db.credentials (processRenewal live Sample.renewal).
Proof.
  intros live db row.
  assert (getCredential db (Sample.key "6") = Some row) as Hrow by (vm_compute; reflexivity).
  assert (CredentialRow.revoked row <> 0) as Hrevoked by (vm_compute; discriminate).
  split; [exact Hrow|]. split; [exact Hrevoked|].
  split; [exact (proj1 (C8_renewal_skips_revoked_grants db Sample.renewal)
                   (Sample.key "6") row Hrow Hrevoked)|].
  split; [vm_compute; reflexivity|].
  exact (proj2 (C8_renewal_skips_revoked_grants live Sample.renewal) ∅).
Defined.

(** C9 (as amended).  For every event whose [tags] field is not an array,
    [validateEvent] returns invalid with a reason, whatever the hash and
    the signature check say. *)
Theorem C9_non_array_tags_are_rejected (rt : Runtime) (event : RawEvent.t) :
  JS.isArray (RawEvent.tags event) = false ->
  Validation.valid (validateEvent event) = false
  /\ is_Some (Validation.reason (validateEvent event)).
Proof.
  intros H. unfold validateEvent. rewrite H. cbn [negb].
  repeat case_match; cbn; eauto.
Qed.

(** C9, the theorem at an event whose [tags] is a string. *)
Lemma C9_non_array_tags_are_rejected_witness :
  JS.isArray (RawEvent.tags Sample.tagless) = false
  /\ Validation.valid (validateEvent (rt := Sample.runtime) Sample.tagless) = false
  /\ is_Some (Validation.reason (validateEvent (rt := Sample.runtime) Sample.tagless)).
Proof.
  split; [reflexivity|].
  apply (C9_non_array_tags_are_rejected Sample.runtime Sample.tagless). reflexivity.
Defined.

(** C9, counterexample to the claim as stated.  The [tags] of the event is
    an array whose one element is a string, so it is not an array of
    arrays; its id equals the computed identifier and its signature
    verifies; [validateEvent] returns valid. *)
Lemma C9_array_of_strings_counterexample :
  array_of_arrays (RawEvent.tags Sample.untagged) = false
  /\ string_is
       (computeEventId (rt := Sample.runtime)
          (RawEvent.pubkey Sample.untagged) (RawEvent.created_at Sample.untagged)
          (RawEvent.kind Sample.untagged) (RawEvent.tags Sample.untagged)
          (RawEvent.content Sample.untagged))
       (RawEvent.id Sample.untagged) = true
  /\ verifySignature (rt := Sample.runtime) Sample.untagged = true
  /\ validateEvent (rt := Sample.runtime) Sample.untagged = Validation.ok.
Proof.
  repeat split; vm_compute; reflexivity.
Qed.

(** C10.  Let the [expires] tag of a grant be present and not parse as a
    nonzero integer (the string 0 is such a tag).  Then its numeric expiry
    is null in the verifier.  The credential index computes it as null
    too: when the [a], [class] and [p] tags of the grant are not empty and
    its [issued] tag reads as an integer, [indexCredential] succeeds and
    writes, under the id of the grant, the row of its tags with a null
    expiry and revoked = 0; whatever store [indexCredential] returns is
    the store it was given or holds a row with a null expiry for the
    grant.  [verify] does not return EXPIRED for the grant as long as the
    index holds no expiry for it (which only a renewal can set); so right
    after [saveEvent] has indexed the grant, [verify] does not return
    EXPIRED at any time of the check.  And a walk whose last lookup found
    this grant does not end with "issuer credential was expired at
    issuance time". *)
Theorem C10_unparsable_expiry_is_perpetual (rt : Runtime) (g : NostrEvent.t) (s : string) :
  getTagValue g "expires" = Some s ->
  (forall z, JS.parseInt s = Some z -> z = 0) ->
  expiresNumeric (getTagValue g "expires") = None
  /\ (forall db a c p i issued,
        getTagValue g "a" = Some a -> a <> EmptyString ->
        getTagValue g "class" = Some c -> c <> EmptyString ->
        getTagValue g "p" = Some p -> p <> EmptyString ->
        getTagValue g "issued" = Some i ->
        JS.parseInt i = Some issued ->
        indexCredential db g
        = Some (Db.mk (Db.events db)
                  (<[NostrEvent.id g :=
                       CredentialRow.mk (NostrEvent.id g) a c p (NostrEvent.pubkey g)
                         issued None (getTagValue g "chain") 0 None None]>
                     (Db.credentials db))
                  (Db.schemas db)))
  /\ (forall db db',
        indexCredential db g = Some db' ->
        db' = db
        \/ exists row,
             Db.credentials db' !! NostrEvent.id g = Some row
             /\ CredentialRow.expires_at row = None)
  /\ (forall db wall now e,
        getCredential db (NostrEvent.id g) ≫= CredentialRow.expires_at = None ->
        CredentialVerifier.verify db wall g now <> Some (EXPIRED e))
  /\ (forall db wall now e a c p i issued,
        NostrEvent.kind g = EVENT_KINDS.CREDENTIAL_GRANT ->
        getTagValue g "a" = Some a -> a <> EmptyString ->
        getTagValue g "class" = Some c -> c <> EmptyString ->
        getTagValue g "p" = Some p -> p <> EmptyString ->
        getTagValue g "issued" = Some i ->
        JS.parseInt i = Some issued ->
        fst (saveEvent db g) = true
        /\ CredentialRow.expires_at <$> getCredential (snd (saveEvent db g)) (NostrEvent.id g)
           = Some None
        /\ CredentialVerifier.verify (snd (saveEvent db g)) wall g now <> Some (EXPIRED e))
  /\ (forall fuel db wall ip ci cc al cr sc rp now depth r log entry,
        CredentialVerifier.verifyChain_rec fuel db wall ip ci cc al cr sc rp now depth
          = Some (r, log) ->
        last log = Some entry ->
        Lookup.upstream entry = Some g ->
        r <> INVALID "issuer credential was expired at issuance time").
Proof.
  intros Htag Hparse.
  assert (expiresNumeric (getTagValue g "expires") = None) as Hnull
    by (rewrite Htag; apply expiresNumeric_unparsable, Hparse).
  assert (forall db wall now e,
            getCredential db (NostrEvent.id g) ≫= CredentialRow.expires_at = None ->
            CredentialVerifier.verify db wall g now <> Some (EXPIRED e)) as Hverify.
  { intros db wall now e Hrow. unfold CredentialVerifier.verify.
    destruct (CredentialVerifier.verify_traced db wall g now) as [[r log]|] eqn:Hrun;
      [|discriminate].
    cbn. intros [= ->].
    destruct (verify_traced_expired _ _ _ _ _ _ Hrun) as [[H|[_ H]] _]; congruence. }
  split; [exact Hnull|]. split; [|split; [|split; [exact Hverify|split]]].
  - intros db a c p i issued Ha Hane Hc Hcne Hp Hpne Hi Hissued.
    rewrite (indexCredential_row db g a c p i issued) by assumption.
    rewrite Hnull. reflexivity.
  - intros db db' H. destruct (indexCredential_expires _ _ _ H) as [->|(row & Hrow & Hexp & _)].
    + left; reflexivity.
    + right. exists row. rewrite Hexp, Hnull. auto.
  - intros db wall now e a c p i issued Hkind Ha Hane Hc Hcne Hp Hpne Hi Hissued.
    destruct (saveEvent_grant_row db g a c p i issued) as [Hsaved Hrow]; try assumption.
    rewrite Hnull in Hrow.
    split; [exact Hsaved|]. split; [rewrite Hrow; reflexivity|].
    apply Hverify. rewrite Hrow. reflexivity.
  - intros fuel db wall ip ci cc al cr sc rp now depth r log entry Hrun Hlast Hup ->.
    destruct (verifyChain_rec_expired_at_issuance _ _ _ _ _ _ _ _ _ _ _ _ _ Hrun)
      as (entry' & U & e & Hlast' & Hup' & Hexp & _).
    congruence.
Qed.

(** C10, the theorem at dana's director grant, whose [expires] tag is 0:
    the row that [indexCredential] writes for it has a null expiry, and
    after [saveEvent] the grant is not EXPIRED at time 3000. *)
Lemma C10_unparsable_expiry_is_perpetual_witness :
  let g := Sample.lapsed_director in
  let row :=
    CredentialRow.mk (Sample.key "2") Sample.cached_ref "director" Sample.dana Sample.root
      50 None None 0 None None in
  getTagValue g "expires" = Some "0"
  /\ (forall z, JS.parseInt "0" = Some z -> z = 0)
  /\ expiresNumeric (getTagValue g "expires") = None
  /\ indexCredential Db.empty g
     = Some (Db.mk (Db.events Db.empty) (<[Sample.key "2" := row]> (Db.credentials Db.empty))
               (Db.schemas Db.empty))
  /\ (forall db wall now e,
        getCredential db (NostrEvent.id g) ≫= CredentialRow.expires_at = None ->
        CredentialVerifier.verify (rt := Sample.runtime) db wall g now <> Some (EXPIRED e))
  /\ CredentialRow.expires_at
       <$> getCredential (snd (saveEvent Db.empty g)) (NostrEvent.id g)
     = Some None
  /\ CredentialVerifier.verify (rt := Sample.runtime) (snd (saveEvent Db.empty g)) 0 g 3000
     <> Some (EXPIRED 0).
Proof.
  intros g row.
  assert (getTagValue g "expires" = Some "0") as Htag by (vm_compute; reflexivity).
  assert (forall z, JS.parseInt "0" = Some z -> z = 0) as Hparse
    by (intros z H; vm_compute in H; congruence).
  assert (Sample.cached_ref <> EmptyString) as Ha by (vm_compute; discriminate).
  assert (Sample.dana <> EmptyString) as Hp by (vm_compute; discriminate).
  assert ("director" <> EmptyString) as Hc by discriminate.
  split; [exact Htag|]. split; [exact Hparse|].
  destruct (C10_unparsable_expiry_is_perpetual Sample.runtime g "0" Htag Hparse)
    as (Hnull & Hindex & _ & Hverify & Hsaved & _).
  split; [exact Hnull|].
  split; [exact (Hindex Db.empty Sample.cached_ref "director" Sample.dana "50" 50
                   eq_refl Ha eq_refl Hc eq_refl Hp eq_refl eq_refl)|].
  split; [exact Hverify|].
  destruct (Hsaved Db.empty 0 3000 0 Sample.cached_ref "director" Sample.dana "50" 50
              eq_refl eq_refl Ha eq_refl Hc eq_refl Hp eq_refl eq_refl)
    as (_ & Hrow & Hnot).
  split; [exact Hrow | exact Hnot].
Defined.

(** ** Further properties of the code *)

(** *** Composite addresses *)

Lemma app_cons a s t : String a s +:+ t = String a (s +:+ t).
Proof. reflexivity. Qed.

Lemma string_app_assoc (a b c : string) : (a +:+ b) +:+ c = a +:+ (b +:+ c).
Proof.
  induction a as [|x a IH]; [reflexivity|]. rewrite !app_cons, IH. reflexivity.
Qed.

Lemma string_app_nil_r (a : string) : a +:+ EmptyString = a.
Proof. induction a as [|x a IH]; [reflexivity|]. rewrite app_cons, IH. reflexivity. Qed.

Lemma string_rev_app s acc : String.rev_app s acc = String.rev s +:+ acc.
Proof.
  unfold String.rev. revert acc. induction s as [|a s IH]; intros acc; [reflexivity|].
  cbn [String.rev_app].
  rewrite (IH (String a acc)), (IH (String a EmptyString)), string_app_assoc. reflexivity.
Qed.

Lemma string_rev_cons a s : String.rev (String a s) = String.rev s +:+ String a EmptyString.
Proof. unfold String.rev at 1. cbn [String.rev_app]. apply string_rev_app. Qed.

Lemma split_aux_nonempty sep cur s : JS.split_aux sep cur s <> [].
Proof.
  revert cur. induction s as [|a s IH]; intros cur; cbn [JS.split_aux]; [discriminate|].
  destruct (Ascii.eqb a sep); [discriminate | apply IH].
Qed.

Lemma join_cons sep p rest :
  rest <> [] -> JS.join sep (p :: rest) = p +:+ sep +:+ JS.join sep rest.
Proof. destruct rest; [congruence | reflexivity]. Qed.

Lemma join_split_aux cur s :
  JS.join ":" (JS.split_aux ":" cur s) = String.rev cur +:+ s.
Proof.
  revert cur. induction s as [|a s IH]; intros cur; cbn [JS.split_aux].
  - cbn [JS.join]. rewrite string_app_nil_r. reflexivity.
  - destruct (Ascii.eqb_spec a ":") as [->|Hne].
    + rewrite join_cons by apply split_aux_nonempty. rewrite IH. reflexivity.
    + rewrite IH, string_rev_cons, string_app_assoc. reflexivity.
Qed.

Lemma join_split s : JS.join ":" (JS.split ":" s) = s.
Proof. apply join_split_aux. Qed.

Lemma colon_free_app a b : colon_free a -> colon_free b -> colon_free (a +:+ b).
Proof.
  induction a as [|x a IH]; [auto|]. rewrite app_cons. cbn [colon_free].
  intros [? ?] ?; auto.
Qed.

Lemma colon_free_rev a : colon_free a -> colon_free (String.rev a).
Proof.
  induction a as [|x a IH]; [auto|]. cbn [colon_free]. intros [? ?].
  rewrite string_rev_cons. apply colon_free_app; cbn [colon_free]; auto.
Qed.

Lemma split_aux_colon_free cur s :
  colon_free cur -> Forall colon_free (JS.split_aux ":" cur s).
Proof.
  revert cur. induction s as [|a s IH]; intros cur Hcur; cbn [JS.split_aux].
  - constructor; [apply colon_free_rev, Hcur | constructor].
  - destruct (Ascii.eqb_spec a ":") as [->|Hne].
    + constructor; [apply colon_free_rev, Hcur | apply IH; exact I].
    + apply IH. cbn [colon_free]. auto.
Qed.

Lemma split_aux_free cur a :
  colon_free a -> JS.split_aux ":" cur a = [String.rev cur +:+ a].
Proof.
  revert cur. induction a as [|x a IH]; intros cur; cbn [JS.split_aux colon_free].
  - rewrite string_app_nil_r. reflexivity.
  - intros [Hx Ha]. destruct (Ascii.eqb_spec x ":") as [->|_]; [contradiction|].
    rewrite IH by exact Ha. rewrite string_rev_cons, string_app_assoc. reflexivity.
Qed.

Lemma split_aux_colon cur a b :
  colon_free a ->
  JS.split_aux ":" cur (a +:+ String ":" b)
  = (String.rev cur +:+ a) :: JS.split_aux ":" EmptyString b.
Proof.
  revert cur. induction a as [|x a IH]; intros cur.
  - intros _. cbn [JS.split_aux]. change (EmptyString +:+ String ":" b) with (String ":" b).
    cbn [JS.split_aux]. rewrite Ascii.eqb_refl, string_app_nil_r. reflexivity.
  - cbn [colon_free]. intros [Hx Ha]. rewrite app_cons. cbn [JS.split_aux].
    destruct (Ascii.eqb_spec x ":") as [->|_]; [contradiction|].
    rewrite IH by exact Ha. rewrite string_rev_cons, string_app_assoc. reflexivity.
Qed.

Lemma split_colon a b :
  colon_free a -> JS.split ":" (a +:+ ":" +:+ b) = a :: JS.split ":" b.
Proof.
  intros Ha. unfold JS.split. change (":" +:+ b) with (String ":" b).
  rewrite split_aux_colon by exact Ha. reflexivity.
Qed.

(** [parseATag] accepts exactly the strings [kind:pubkey:tail] ... *)
(** X1.  [parseATag] returns an address exactly for the texts of the form
    kind:pubkey:dTag in which the kind part has no colon and reads as an
    integer under [parseInt], and the pubkey part has no colon and 64
    characters; the address holds that integer, that pubkey and everything
    after the second colon, further colons included. *)
Theorem parseATag_spec (aTag : string) (a : ATag.t) :
  parseATag aTag = Some a
  <-> exists kindText,
        colon_free kindText
        /\ colon_free (ATag.pubkey a)
        /\ aTag = kindText +:+ ":" +:+ ATag.pubkey a +:+ ":" +:+ ATag.dTag a
        /\ JS.parseInt kindText = Some (ATag.kind a)
        /\ String.length (ATag.pubkey a) = 64%nat.
Proof.
  split.
  - unfold parseATag. intros H.
    pose proof (join_split aTag) as Hjoin.
    pose proof (split_aux_colon_free EmptyString aTag I) as Hfree.
    fold (JS.split ":" aTag) in Hfree.
    destruct (JS.split ":" aTag) as [|k [|p [|d rest]]] eqn:Hsplit; try discriminate.
    cbn [length nth drop] in H.
    replace (Z.of_nat (S (S (S (length rest)))) <? 3) with false in H
      by (symmetry; apply Z.ltb_ge; lia).
    destruct (JS.parseInt k) as [n|] eqn:Hk; [|discriminate].
    destruct (Z.eqb_spec (Z.of_nat (String.length p)) 64) as [Hlen|Hlen];
      cbn [negb] in H; [|discriminate].
    injection H as <-. cbn [ATag.pubkey ATag.dTag ATag.kind].
    exists k. inversion Hfree as [|? ? Hk' Hrest]; subst.
    inversion Hrest as [|? ? Hp' _]; subst.
    split; [assumption|]. split; [assumption|].
    split; [|split; [assumption | lia]].
    rewrite !join_cons by discriminate. reflexivity.
  - intros (k & Hk & Hp & -> & Hint & Hlen).
    unfold parseATag. rewrite split_colon by exact Hk. rewrite split_colon by exact Hp.
    assert ((Z.of_nat (length (k :: ATag.pubkey a :: JS.split ":" (ATag.dTag a))) <? 3)
            = false) as Hparts.
    { destruct (JS.split ":" (ATag.dTag a)) eqn:Hd;
        [exfalso; eapply split_aux_nonempty; exact Hd|].
      cbn [length]. apply Z.ltb_ge. lia. }
    rewrite Hparts. cbn [nth drop]. rewrite Hint, Hlen.
    change (negb (Z.of_nat 64 =? 64)) with false. cbv iota.
    rewrite drop_0, join_split. destruct a; reflexivity.
Qed.

(** X1 at an address whose d tag holds a colon. *)
Lemma parseATag_spec_witness :
  let a := ATag.mk 30301 Sample.root "ns:id" in
  (exists kindText,
      colon_free kindText /\ colon_free (ATag.pubkey a)
      /\ "30301:" +:+ Sample.root +:+ ":ns:id"
         = kindText +:+ ":" +:+ ATag.pubkey a +:+ ":" +:+ ATag.dTag a
      /\ JS.parseInt kindText = Some (ATag.kind a)
      /\ String.length (ATag.pubkey a) = 64%nat)
  /\ parseATag ("30301:" +:+ Sample.root +:+ ":ns:id") = Some a.
Proof.
  intros a.
  assert (exists kindText,
      colon_free kindText /\ colon_free (ATag.pubkey a)
      /\ "30301:" +:+ Sample.root +:+ ":ns:id"
         = kindText +:+ ":" +:+ ATag.pubkey a +:+ ":" +:+ ATag.dTag a
      /\ JS.parseInt kindText = Some (ATag.kind a)
      /\ String.length (ATag.pubkey a) = 64%nat) as H.
  { exists "30301". vm_compute. repeat split; discriminate. }
  split; [exact H|]. apply (proj2 (parseATag_spec _ a)). exact H.
Defined.

(** *** Tags *)

(** X2.  [getTagValues] lists the second elements of the tags named
    [tagName] that have one; a value found by [getTagValue] is the first
    value of [getTagValues]; and when [getTagValues] is empty,
    [getTagValue] finds none. *)
Theorem getTagValues_spec (event : NostrEvent.t) (tagName : string) :
  (forall v, v ∈ getTagValues event tagName
             <-> exists tag, tag ∈ NostrEvent.tags event
                             /\ tag !! 0%nat = Some tagName /\ tag !! 1%nat = Some v)
  /\ (forall v, getTagValue event tagName = Some v ->
                head (getTagValues event tagName) = Some v)
  /\ (getTagValues event tagName = [] -> getTagValue event tagName = None).
Proof.
  split; [|split].
  - intros v. unfold getTagValues. rewrite list_elem_of_omap. split.
    + intros (tag & Hin & Hv). apply list_elem_of_In, filter_In in Hin as [Hin Hname].
      apply bool_decide_eq_true in Hname. exists tag. rewrite list_elem_of_In. auto.
    + intros (tag & Hin & Hname & Hv). exists tag. split; [|exact Hv].
      apply list_elem_of_In, filter_In. split; [apply list_elem_of_In, Hin|].
      apply bool_decide_eq_true. exact Hname.
  - intros v. unfold getTagValues, getTagValue.
    induction (NostrEvent.tags event) as [|t tags IH]; [discriminate|].
    cbn [List.find List.filter].
    destruct (bool_decide (t !! 0%nat = Some tagName)); [|exact IH].
    intros Hv. change (omap ?f (t :: ?l)) with (match f t with Some y => y :: omap f l | None => omap f l end).
    cbv beta. rewrite Hv. reflexivity.
  - unfold getTagValues, getTagValue.
    induction (NostrEvent.tags event) as [|t tags IH]; [reflexivity|].
    cbn [List.find List.filter].
    destruct (bool_decide (t !! 0%nat = Some tagName)); [|exact IH].
    change (omap ?f (t :: ?l)) with (match f t with Some y => y :: omap f l | None => omap f l end).
    cbv beta. destruct (t !! 1%nat); [discriminate | reflexivity].
Qed.

(** X2 at the [reason] tag of the sample revocation. *)
Lemma getTagValues_spec_witness :
  getTagValue Sample.revocation "reason" = Some "spite"
  /\ head (getTagValues Sample.revocation "reason") = Some "spite".
Proof.
  assert (getTagValue Sample.revocation "reason" = Some "spite") as H
    by (vm_compute; reflexivity).
  split; [exact H|].
  exact (proj1 (proj2 (getTagValues_spec Sample.revocation "reason")) "spite" H).
Defined.

(** *** Event validation *)

Section Validation.
Context {rt : Runtime}.

Lemma typeof_string v :
  bool_decide (typeof v = "string") = true -> exists s, v = JS.JString s.
Proof. destruct v; intros H; vm_compute in H; try discriminate; eauto. Qed.

Lemma typeof_number v :
  bool_decide (typeof v = "number") = true -> exists n, v = JS.JNumber n.
Proof. destruct v; intros H; vm_compute in H; try discriminate; eauto. Qed.

Lemma isArray_array v : JS.isArray v = true -> exists items, v = JS.JArray items.
Proof. destruct v; intros H; try discriminate; eauto. Qed.

(** X3.  [validateEvent] accepts a value exactly when id, pubkey and sig
    are strings of 64, 64 and 128 characters, content is a string,
    created_at and kind are numbers that are not negative, tags is an
    array, the id is the hash of the serialized event and the signature
    verifies against id and pubkey. *)
Theorem validateEvent_spec (event : RawEvent.t) :
  Validation.valid (validateEvent event) = true
  <-> exists id pubkey sig content created_at kind items,
        event = RawEvent.mk (JS.JString id) (JS.JString pubkey) (JS.JNumber created_at)
                  (JS.JNumber kind) (JS.JArray items) (JS.JString content) (JS.JString sig)
        /\ String.length id = 64%nat
        /\ String.length pubkey = 64%nat
        /\ String.length sig = 128%nat
        /\ 0 <= created_at
        /\ 0 <= kind
        /\ computeEventId (JS.JString pubkey) (JS.JNumber created_at) (JS.JNumber kind)
             (JS.JArray items) (JS.JString content) = id
        /\ schnorr_verify_hex sig id pubkey = true.
Proof.
  split.
  - destruct event as [i p c k t co s]. unfold validateEvent.
    cbn [RawEvent.id RawEvent.pubkey RawEvent.sig RawEvent.created_at RawEvent.kind
         RawEvent.tags RawEvent.content].
    intros H.
    repeat match type of H with
           | Validation.valid (if ?cond then _ else _) = true =>
               let E := fresh "E" in
               destruct cond eqn:E; [cbn in H; discriminate H|]
           end.
    repeat match goal with
           | E : _ || _ = false |- _ => apply orb_false_elim in E; destruct E
           | E : negb _ = false |- _ => apply negb_false_iff in E
           end.
    repeat match goal with
           | E : bool_decide (typeof _ = "string") = true |- _ =>
               apply typeof_string in E; destruct E as [? ->]
           | E : bool_decide (typeof _ = "number") = true |- _ =>
               apply typeof_number in E; destruct E as [? ->]
           | E : JS.isArray _ = true |- _ =>
               apply isArray_array in E; destruct E as [? ->]
           end.
    cbn [length_of negative string_is verifySignature RawEvent.id RawEvent.pubkey
         RawEvent.sig] in *.
    repeat match goal with
           | E : (_ =? _) = true |- _ => apply Z.eqb_eq in E
           | E : (_ <? _) = false |- _ => apply Z.ltb_ge in E
           | E : bool_decide _ = true |- _ => apply bool_decide_eq_true in E
           end.
    eexists _, _, _, _, _, _, _. split; [reflexivity|].
    repeat split; try lia; assumption.
  - intros (id & pubkey & sig & content & created_at & kind & items
            & -> & Hid & Hpk & Hsig & Hc & Hk & Hcomp & Hver).
    unfold validateEvent.
    cbn [RawEvent.id RawEvent.pubkey RawEvent.sig RawEvent.created_at RawEvent.kind
         RawEvent.tags RawEvent.content length_of negative JS.isArray JS.truthy typeof
         verifySignature string_is].
    rewrite Hid, Hpk, Hsig, Hcomp, Hver.
    replace (created_at <? 0) with false by (symmetry; apply Z.ltb_ge; lia).
    replace (kind <? 0) with false by (symmetry; apply Z.ltb_ge; lia).
    rewrite (bool_decide_eq_true_2 (id = id)) by reflexivity.
    assert (forall s n, String.length s = S n -> negb (bool_decide (s = EmptyString)) = true)
      as Hne.
    { intros s n Hs. apply negb_true_iff, bool_decide_eq_false. intros ->. discriminate. }
    rewrite (Hne _ _ Hid), (Hne _ _ Hpk), (Hne _ _ Hsig). reflexivity.
Qed.

End Validation.

(** X3 at a sample event, under the sample runtime. *)
Lemma validateEvent_spec_witness :
  Validation.valid (validateEvent (rt := Sample.runtime) Sample.untagged) = true
  /\ exists id pubkey sig content created_at kind items,
       Sample.untagged
       = RawEvent.mk (JS.JString id) (JS.JString pubkey) (JS.JNumber created_at)
           (JS.JNumber kind) (JS.JArray items) (JS.JString content) (JS.JString sig)
       /\ String.length id = 64%nat
       /\ String.length pubkey = 64%nat
       /\ String.length sig = 128%nat
       /\ 0 <= created_at
       /\ 0 <= kind
       /\ computeEventId (rt := Sample.runtime) (JS.JString pubkey) (JS.JNumber created_at)
            (JS.JNumber kind) (JS.JArray items) (JS.JString content) = id
       /\ schnorr_verify_hex (Runtime := Sample.runtime) sig id pubkey = true.
Proof.
  assert (Validation.valid (validateEvent (rt := Sample.runtime) Sample.untagged) = true)
    as H by (vm_compute; reflexivity).
  split; [exact H|].
  exact (proj1 (validateEvent_spec (rt := Sample.runtime) Sample.untagged) H).
Defined.

(** *** The store *)

Lemma saveEvent_steps db ev :
  saveEvent db ev
  = index_event (insert_or_ignore_event (event_row ev) (supersede db ev)) ev.
Proof. reflexivity. Qed.

Lemma row_event_event_row ev : row_event (event_row ev) = ev.
Proof. destruct ev; reflexivity. Qed.

Lemma index_event_events d ev : Db.events (snd (index_event d ev)) = Db.events d.
Proof.
  unfold index_event.
  repeat (case_match; simplify_eq); cbn [snd];
    rewrite ?processRenewal_events, ?processRevocation_events, ?cacheSchema_events;
    try (erewrite indexCredential_events by eassumption); reflexivity.
Qed.

Lemma delete_events_none cond db :
  (forall row, row ∈ Db.events db -> cond row = false) -> delete_events cond db = db.
Proof.
  intros H. destruct db as [events creds schemas]. unfold delete_events.
  cbn [Db.events Db.credentials Db.schemas] in *.
  assert (List.filter cond events = []) as ->.
  { induction events as [|r l IH]; [reflexivity|]. cbn [List.filter].
    rewrite (H r) by (apply elem_of_cons; auto). apply IH. intros; apply H.
    apply elem_of_cons; auto. }
  assert (List.filter (fun row => negb (cond row)) events = events) as ->.
  { induction events as [|r l IH]; [reflexivity|]. cbn [List.filter].
    rewrite (H r) by (apply elem_of_cons; auto). cbn [negb]. f_equal. apply IH.
    intros; apply H. apply elem_of_cons; auto. }
  reflexivity.
Qed.

Lemma delete_events_elem cond db row :
  row ∈ Db.events (delete_events cond db) <-> row ∈ Db.events db /\ cond row = false.
Proof.
  cbn [delete_events Db.events]. rewrite !list_elem_of_In, filter_In.
  rewrite negb_true_iff. reflexivity.
Qed.

Lemma insert_or_ignore_event_elem new db row :
  row ∈ Db.events (insert_or_ignore_event new db) -> row ∈ Db.events db \/ row = new.
Proof.
  unfold insert_or_ignore_event. case_match; [auto|].
  cbn [Db.events]. rewrite elem_of_app, list_elem_of_singleton. auto.
Qed.

Lemma superseded_by_self ev : superseded_by ev (event_row ev) = false.
Proof.
  unfold superseded_by. cbn [event_row EventRow.created_at EventRow.id].
  rewrite Z.ltb_irrefl, Z.eqb_refl. cbn [orb andb].
  unfold String.ltb. pose proof (String.compare_antisym (NostrEvent.id ev) (NostrEvent.id ev)) as H.
  destruct (String.compare (NostrEvent.id ev) (NostrEvent.id ev)); cbn in H;
    [reflexivity | discriminate | reflexivity].
Qed.

(** Rows of [supersede]: exactly the rows that the incoming event does not
    replace. *)
Lemma supersede_elem db ev row :
  row ∈ Db.events (supersede db ev)
  <-> row ∈ Db.events db
      /\ (EventRow.kind row = NostrEvent.kind ev ->
          EventRow.pubkey row = NostrEvent.pubkey ev ->
          superseded_by ev row = true ->
          (isReplaceable (NostrEvent.kind ev) = false
           /\ (isParameterizedReplaceable (NostrEvent.kind ev) = false
               \/ getTagValue ev "d" = None
               \/ EventRow.d_tag row <> getTagValue ev "d"))).
Proof.
  unfold supersede. cbv zeta.
  destruct (isReplaceable (NostrEvent.kind ev)) eqn:Hr;
  destruct (getTagValue ev "d") as [d|] eqn:Hd;
  try destruct (isParameterizedReplaceable (NostrEvent.kind ev)) eqn:Hp;
  rewrite ?delete_events_elem;
  destruct (Z.eqb_spec (EventRow.kind row) (NostrEvent.kind ev));
  destruct (superseded_by ev row);
  repeat case_bool_decide; cbn; intuition (try congruence; try discriminate).
Qed.

Lemma saveEvent_events db ev :
  Db.events (snd (saveEvent db ev))
  = Db.events (insert_or_ignore_event (event_row ev) (supersede db ev)).
Proof. rewrite saveEvent_steps. apply index_event_events. Qed.

Lemma saveEvent_rows_settled db ev row :
  row ∈ Db.events (snd (saveEvent db ev)) ->
  EventRow.kind row = NostrEvent.kind ev ->
  EventRow.pubkey row = NostrEvent.pubkey ev ->
  (isReplaceable (NostrEvent.kind ev) = true -> superseded_by ev row = false)
  /\ (isParameterizedReplaceable (NostrEvent.kind ev) = true ->
      is_Some (getTagValue ev "d") ->
      EventRow.d_tag row = getTagValue ev "d" ->
      superseded_by ev row = false).
Proof.
  rewrite saveEvent_events. intros Hin Hkind Hpk.
  apply insert_or_ignore_event_elem in Hin as [Hin| ->];
    [|split; intros; apply superseded_by_self].
  apply supersede_elem in Hin as [_ Hin].
  destruct (superseded_by ev row); [|split; reflexivity].
  destruct (Hin Hkind Hpk eq_refl) as [Hr Hp].
  split; [congruence|]. intros Hparam [d Hd] Hrow.
  destruct Hp as [Hp|[Hp|Hp]]; congruence.
Qed.

(** X4.  After [saveEvent] of a replaceable event, or of a parameterized
    replaceable event that has a [d] tag, no stored row of the same kind
    and author (and, in the second case, the same [d] tag) is older than
    the event: its created_at is at least the event's, and at equal
    created_at its id is not below the event's. *)
Theorem saveEvent_replaces db ev row :
  row ∈ Db.events (snd (saveEvent db ev)) ->
  EventRow.kind row = NostrEvent.kind ev ->
  EventRow.pubkey row = NostrEvent.pubkey ev ->
  isReplaceable (NostrEvent.kind ev) = true
  \/ (isParameterizedReplaceable (NostrEvent.kind ev) = true
      /\ is_Some (getTagValue ev "d")
      /\ EventRow.d_tag row = getTagValue ev "d") ->
  NostrEvent.created_at ev <= EventRow.created_at row
  /\ (EventRow.created_at row = NostrEvent.created_at ev ->
      String.ltb (EventRow.id row) (NostrEvent.id ev) = false).
Proof.
  intros Hin Hkind Hpk Hcase.
  destruct (saveEvent_rows_settled db ev row Hin Hkind Hpk) as [Hr Hp].
  assert (superseded_by ev row = false) as Hs.
  { destruct Hcase as [Hrep | (Hparam & Hd & Hrow)]; [apply Hr, Hrep | apply Hp; assumption]. }
  unfold superseded_by in Hs. apply orb_false_elim in Hs as [Hlt Heq].
  apply Z.ltb_ge in Hlt. split; [exact Hlt|].
  intros Hsame. rewrite Hsame, Z.eqb_refl in Heq. exact Heq.
Qed.

(** X4 at the two versions of dana's profile. *)
Lemma saveEvent_replaces_witness :
  let db := snd (saveEvent Db.empty Sample.profile_old) in
  let row := event_row Sample.profile_new in
  row ∈ Db.events (snd (saveEvent db Sample.profile_new))
  /\ Db.events (snd (saveEvent db Sample.profile_new)) = [row]
  /\ NostrEvent.created_at Sample.profile_new <= EventRow.created_at row.
Proof.
  intros db row.
  assert (row ∈ Db.events (snd (saveEvent db Sample.profile_new))) as Hin
    by (apply list_elem_of_In; vm_compute; left; reflexivity).
  split; [exact Hin|]. split; [vm_compute; reflexivity|].
  exact (proj1 (saveEvent_replaces db Sample.profile_new row Hin eq_refl eq_refl
                  (or_introl eq_refl))).
Defined.

(** X5.  [saveEvent] removes a stored row only if the row has the kind and
    the author of the incoming event, is older than it (or as old, with a
    lower id), and the kind is replaceable, or parameterized replaceable
    with the row under the [d] tag of the event. *)
Theorem saveEvent_removes_only_superseded db ev row :
  row ∈ Db.events db ->
  row ∉ Db.events (snd (saveEvent db ev)) ->
  EventRow.kind row = NostrEvent.kind ev
  /\ EventRow.pubkey row = NostrEvent.pubkey ev
  /\ superseded_by ev row = true
  /\ (isReplaceable (NostrEvent.kind ev) = true
      \/ (isParameterizedReplaceable (NostrEvent.kind ev) = true
          /\ is_Some (getTagValue ev "d")
          /\ EventRow.d_tag row = getTagValue ev "d")).
Proof.
  rewrite saveEvent_events. intros Hin Hout.
  assert (row ∉ Db.events (supersede db ev)) as Hgone
    by (intros H; apply Hout, insert_or_ignore_event_keeps, H).
  rewrite supersede_elem in Hgone.
  destruct (Z.eq_dec (EventRow.kind row) (NostrEvent.kind ev)) as [Hk|Hk];
    [|exfalso; apply Hgone; split; [exact Hin | intros; contradiction]].
  destruct (decide (EventRow.pubkey row = NostrEvent.pubkey ev)) as [Hp|Hp];
    [|exfalso; apply Hgone; split; [exact Hin | intros; contradiction]].
  destruct (superseded_by ev row) eqn:Hs;
    [|exfalso; apply Hgone; split; [exact Hin | intros; discriminate]].
  repeat split; try assumption.
  destruct (isReplaceable (NostrEvent.kind ev)) eqn:Hr; [left; reflexivity|].
  right.
  destruct (isParameterizedReplaceable (NostrEvent.kind ev)) eqn:Hparam;
    [|exfalso; apply Hgone; split; [exact Hin | intros; auto]].
  destruct (getTagValue ev "d") as [d|] eqn:Hd;
    [|exfalso; apply Hgone; split; [exact Hin | intros; auto]].
  destruct (decide (EventRow.d_tag row = Some d)) as [Hrow|Hrow];
    [|exfalso; apply Hgone; split; [exact Hin | intros; auto]].
  repeat split; eauto.
Qed.

Lemma find_app_none {A} (f : A -> bool) l l' :
  List.find f l = None -> List.find f (l ++ l') = List.find f l'.
Proof.
  induction l as [|x l IH]; [reflexivity|]. cbn. destruct (f x); [discriminate | exact IH].
Qed.

Lemma find_id_none (l : list EventRow.t) id :
  (forall r, r ∈ l -> EventRow.id r <> id) ->
  List.find (fun row => bool_decide (EventRow.id row = id)) l = None.
Proof.
  intros H. induction l as [|x l IH]; [reflexivity|]. cbn.
  rewrite bool_decide_eq_false_2 by (apply H, elem_of_cons; auto).
  apply IH. intros r Hr. apply H, elem_of_cons. auto.
Qed.

Lemma existsb_id_false (l : list EventRow.t) id :
  (forall r, r ∈ l -> EventRow.id r <> id) ->
  existsb (fun r => bool_decide (EventRow.id r = id)) l = false.
Proof.
  intros H. induction l as [|x l IH]; [reflexivity|]. cbn.
  rewrite bool_decide_eq_false_2 by (apply H, elem_of_cons; auto).
  apply IH. intros r Hr. apply H, elem_of_cons. auto.
Qed.

Lemma saveEvent_events_fresh db ev :
  (forall r, r ∈ Db.events db -> EventRow.id r <> NostrEvent.id ev) ->
  Db.events (snd (saveEvent db ev)) = (Db.events (supersede db ev) ++ [event_row ev])%list
  /\ forall r, r ∈ Db.events (supersede db ev) -> EventRow.id r <> NostrEvent.id ev.
Proof.
  intros Hfresh.
  assert (forall r, r ∈ Db.events (supersede db ev) -> EventRow.id r <> NostrEvent.id ev)
    as Hfresh' by (intros r Hr; apply Hfresh; apply supersede_elem in Hr as [Hr _]; exact Hr).
  split; [|exact Hfresh'].
  rewrite saveEvent_events. unfold insert_or_ignore_event.
  change (EventRow.id (event_row ev)) with (NostrEvent.id ev).
  rewrite (existsb_id_false _ _ Hfresh'). reflexivity.
Qed.

(** X5 at the two versions of dana's profile. *)
Lemma saveEvent_removes_only_superseded_witness :
  let db := snd (saveEvent Db.empty Sample.profile_old) in
  let row := event_row Sample.profile_old in
  row ∈ Db.events db
  /\ (row ∉ Db.events (snd (saveEvent db Sample.profile_new)))
  /\ superseded_by Sample.profile_new row = true.
Proof.
  intros db row.
  assert (row ∈ Db.events db) as Hin
    by (apply list_elem_of_In; vm_compute; left; reflexivity).
  assert (row ∉ Db.events (snd (saveEvent db Sample.profile_new))) as Hout.
  { rewrite list_elem_of_In. vm_compute. intros [H|[]]. discriminate H. }
  split; [exact Hin|]. split; [exact Hout|].
  exact (proj1 (proj2 (proj2
           (saveEvent_removes_only_superseded db Sample.profile_new row Hin Hout)))).
Defined.

(** X6.  Round trip: after [saveEvent] of an event whose id is not yet
    stored, [getEvent] at that id returns the event. *)
Theorem saveEvent_getEvent db ev :
  (forall r, r ∈ Db.events db -> EventRow.id r <> NostrEvent.id ev) ->
  getEvent (snd (saveEvent db ev)) (NostrEvent.id ev) = Some ev.
Proof.
  intros Hfresh. destruct (saveEvent_events_fresh db ev Hfresh) as [Hev Hfresh'].
  unfold getEvent. rewrite Hev, find_app_none by (apply find_id_none, Hfresh').
  cbn [List.find event_row EventRow.id]. rewrite bool_decide_eq_true_2 by reflexivity.
  cbn. f_equal. apply row_event_event_row.
Qed.

(** X6 at a grant saved to the empty store. *)
Lemma saveEvent_getEvent_witness :
  getEvent (snd (saveEvent Db.empty Sample.director_grant)) (NostrEvent.id Sample.director_grant)
  = Some Sample.director_grant.
Proof.
  apply (saveEvent_getEvent Db.empty Sample.director_grant).
  intros r Hr. apply list_elem_of_In in Hr. destruct Hr.
Defined.

(** *** Saving twice *)

Lemma insert_or_ignore_event_present row db :
  (exists r, r ∈ Db.events db /\ EventRow.id r = EventRow.id row) ->
  insert_or_ignore_event row db = db.
Proof.
  intros (r & Hin & Hid). unfold insert_or_ignore_event.
  replace (existsb _ _) with true; [reflexivity|].
  symmetry. apply existsb_exists. exists r. split; [apply list_elem_of_In, Hin|].
  apply bool_decide_eq_true. exact Hid.
Qed.

Lemma mark_revoked_twice at_ reason row :
  mark_revoked at_ reason (mark_revoked at_ reason row) = mark_revoked at_ reason row.
Proof. reflexivity. Qed.

Lemma set_expires_twice e row : set_expires e (set_expires e row) = set_expires e row.
Proof.
  unfold set_expires. destruct (CredentialRow.revoked row =? 0) eqn:H; cbn; rewrite H; reflexivity.
Qed.

Lemma alter_twice {A} (f : A -> A) (k : string) (m : gmap string A) :
  (forall x, f (f x) = f x) -> alter f k (alter f k m) = alter f k m.
Proof.
  intros Hf. apply map_eq. intros j. rewrite !lookup_alter.
  destruct (decide (k = j)); [|reflexivity].
  destruct (decide (k = k)); [|congruence].
  destruct (m !! k); cbn; [rewrite Hf|]; reflexivity.
Qed.

Lemma indexCredential_twice d d' ev :
  indexCredential d ev = Some d' -> indexCredential d' ev = Some d'.
Proof.
  unfold indexCredential. intros H. repeat (case_match; simplify_eq); try reflexivity.
  cbn [Db.events Db.credentials Db.schemas]. rewrite insert_insert_eq. reflexivity.
Qed.

Lemma cacheSchema_twice d ev : cacheSchema (cacheSchema d ev) ev = cacheSchema d ev.
Proof.
  unfold cacheSchema. case_match; [reflexivity|].
  cbn [Db.events Db.credentials Db.schemas]. rewrite insert_insert_eq. reflexivity.
Qed.

Lemma processRevocation_twice d ev :
  processRevocation (processRevocation d ev) ev = processRevocation d ev.
Proof.
  unfold processRevocation. repeat case_match; try reflexivity.
  cbn [Db.events Db.credentials Db.schemas]. rewrite alter_twice by reflexivity. reflexivity.
Qed.

Lemma processRenewal_twice d ev :
  processRenewal (processRenewal d ev) ev = processRenewal d ev.
Proof.
  unfold processRenewal. repeat case_match; try reflexivity.
  cbn [Db.events Db.credentials Db.schemas].
  rewrite alter_twice by apply set_expires_twice. reflexivity.
Qed.

Lemma index_event_twice d ev :
  index_event (snd (index_event d ev)) ev = index_event d ev.
Proof.
  unfold index_event. cbv zeta.
  destruct (NostrEvent.kind ev =? EVENT_KINDS.CREDENTIAL_GRANT) eqn:Hg;
  destruct (NostrEvent.kind ev =? EVENT_KINDS.CREDENTIAL_SCHEMA) eqn:Hs;
  destruct (NostrEvent.kind ev =? EVENT_KINDS.CREDENTIAL_REVOCATION) eqn:Hr;
  destruct (NostrEvent.kind ev =? EVENT_KINDS.CREDENTIAL_RENEWAL) eqn:Hn;
  try (exfalso;
       repeat match goal with H : (_ =? _) = true |- _ => apply Z.eqb_eq in H end;
       unfold EVENT_KINDS.CREDENTIAL_GRANT, EVENT_KINDS.CREDENTIAL_SCHEMA,
         EVENT_KINDS.CREDENTIAL_REVOCATION, EVENT_KINDS.CREDENTIAL_RENEWAL in *; lia).
  - destruct (indexCredential d ev) as [d'|] eqn:Hix; cbn [snd].
    + rewrite (indexCredential_twice _ _ _ Hix). reflexivity.
    + rewrite Hix. reflexivity.
  - cbn [snd]. rewrite cacheSchema_twice. reflexivity.
  - cbn [snd]. rewrite processRevocation_twice. reflexivity.
  - cbn [snd]. rewrite processRenewal_twice. reflexivity.
  - reflexivity.
Qed.

Lemma supersede_settled d ev :
  (forall row, row ∈ Db.events d ->
     EventRow.kind row = NostrEvent.kind ev ->
     EventRow.pubkey row = NostrEvent.pubkey ev ->
     (isReplaceable (NostrEvent.kind ev) = true -> superseded_by ev row = false)
     /\ (isParameterizedReplaceable (NostrEvent.kind ev) = true ->
         is_Some (getTagValue ev "d") ->
         EventRow.d_tag row = getTagValue ev "d" ->
         superseded_by ev row = false)) ->
  supersede d ev = d.
Proof.
  intros H. unfold supersede. cbv zeta.
  assert (forall row, row ∈ Db.events d ->
            isReplaceable (NostrEvent.kind ev) = true ->
            (EventRow.kind row =? NostrEvent.kind ev)
            && bool_decide (EventRow.pubkey row = NostrEvent.pubkey ev)
            && superseded_by ev row = false) as H1.
  { intros row Hin Hr.
    destruct (Z.eqb_spec (EventRow.kind row) (NostrEvent.kind ev)); [|reflexivity].
    case_bool_decide as Hpk; [|reflexivity]. cbn.
    destruct (H row Hin e Hpk) as [Ha _]. apply Ha, Hr. }
  assert (forall row dt, row ∈ Db.events d ->
            isParameterizedReplaceable (NostrEvent.kind ev) = true ->
            getTagValue ev "d" = Some dt ->
            (EventRow.kind row =? NostrEvent.kind ev)
            && bool_decide (EventRow.pubkey row = NostrEvent.pubkey ev)
            && bool_decide (EventRow.d_tag row = Some dt)
            && superseded_by ev row = false) as H2.
  { intros row dt Hin Hp Hd.
    destruct (Z.eqb_spec (EventRow.kind row) (NostrEvent.kind ev)); [|reflexivity].
    case_bool_decide as Hpk; [|reflexivity]. case_bool_decide as Hdt; [|reflexivity]. cbn.
    destruct (H row Hin e Hpk) as [_ Hb]. apply Hb; [exact Hp | rewrite Hd; eauto | congruence]. }
  destruct (isReplaceable (NostrEvent.kind ev)) eqn:Hr.
  - rewrite (delete_events_none _ d) by (intros; apply H1; auto).
    destruct (getTagValue ev "d") as [dt|] eqn:Hd; [|reflexivity].
    destruct (isParameterizedReplaceable (NostrEvent.kind ev)) eqn:Hp; [|reflexivity].
    apply delete_events_none. intros. eapply H2; eauto.
  - destruct (getTagValue ev "d") as [dt|] eqn:Hd; [|reflexivity].
    destruct (isParameterizedReplaceable (NostrEvent.kind ev)) eqn:Hp; [|reflexivity].
    apply delete_events_none. intros. eapply H2; eauto.
Qed.

(** X7.  [saveEvent] is idempotent: saving an event again right after it
    was saved returns the same boolean and leaves the store as the first
    call left it. *)
Theorem saveEvent_twice db ev :
  saveEvent (snd (saveEvent db ev)) ev = saveEvent db ev.
Proof.
  rewrite (saveEvent_steps (snd (saveEvent db ev)) ev).
  rewrite supersede_settled by (intros row Hin; exact (saveEvent_rows_settled db ev row Hin)).
  rewrite insert_or_ignore_event_present
    by (destruct (saveEvent_stores db ev) as (r & Hr & Hid); exists r; split; [exact Hr | exact Hid]).
  rewrite saveEvent_steps. apply index_event_twice.
Qed.

(** *** The keys of the store *)

Lemma NoDup_ids_filter (f : EventRow.t -> bool) (l : list EventRow.t) :
  NoDup (map EventRow.id l) -> NoDup (map EventRow.id (List.filter f l)).
Proof.
  induction l as [|x l IH]; [intros; constructor|].
  cbn [map List.filter]. rewrite NoDup_cons. intros [Hx Hl].
  destruct (f x); [|apply IH, Hl].
  cbn [map]. apply NoDup_cons. split; [|apply IH, Hl].
  intros Hin. apply Hx. apply list_elem_of_fmap in Hin as (r & Hid & Hr).
  apply list_elem_of_fmap. exists r. split; [exact Hid|].
  apply list_elem_of_In, filter_In in Hr as [Hr _]. apply list_elem_of_In, Hr.
Qed.

(** The cascade of a [DELETE]: the index rows of the deleted events go. *)
Lemma lookup_cascade (gone : list EventRow.t) (creds : gmap string CredentialRow.t) k :
  foldr (fun row c => delete (EventRow.id row) c) creds gone !! k
  = if bool_decide (k ∈ map EventRow.id gone) then None else creds !! k.
Proof.
  induction gone as [|r gone IH]; cbn [foldr map].
  - rewrite bool_decide_eq_false_2 by (apply not_elem_of_nil). reflexivity.
  - destruct (decide (EventRow.id r = k)) as [->|Hne].
    + rewrite lookup_delete_eq, bool_decide_eq_true_2 by (apply elem_of_cons; auto).
      reflexivity.
    + rewrite lookup_delete_ne by exact Hne. rewrite IH.
      destruct (decide (k ∈ map EventRow.id gone)) as [Hin|Hout].
      * rewrite !bool_decide_eq_true_2; [reflexivity | apply elem_of_cons; auto | exact Hin].
      * rewrite !bool_decide_eq_false_2; [reflexivity | | exact Hout].
        rewrite elem_of_cons. intros [Heq|Hin]; [congruence | contradiction].
Qed.

Lemma delete_events_keys_ok cond db : keys_ok db -> keys_ok (delete_events cond db).
Proof.
  intros (Hids & Hcreds & Hschemas). split; [|split].
  - cbn [delete_events Db.events]. apply NoDup_ids_filter, Hids.
  - intros k row. cbn [delete_events Db.credentials Db.events].
    rewrite lookup_cascade. case_bool_decide as Hgone; [discriminate|].
    intros Hk. destruct (Hcreds k row Hk) as (Hid & r & Hr & Hrk).
    split; [exact Hid|]. exists r. split; [|exact Hrk].
    apply list_elem_of_In, filter_In. split; [apply list_elem_of_In, Hr|].
    destruct (cond r) eqn:Hc; [|reflexivity].
    exfalso. apply Hgone. apply list_elem_of_fmap. exists r. split; [congruence|].
    apply list_elem_of_In, filter_In. split; [apply list_elem_of_In, Hr | exact Hc].
  - exact Hschemas.
Qed.

Lemma insert_or_ignore_event_keys_ok row db :
  keys_ok db -> keys_ok (insert_or_ignore_event row db).
Proof.
  intros (Hids & Hcreds & Hschemas). unfold insert_or_ignore_event.
  destruct (existsb _ _) eqn:Hex; [exact (conj Hids (conj Hcreds Hschemas))|].
  split; [|split]; cbn [Db.events Db.credentials Db.schemas].
  - rewrite map_app. apply NoDup_app. split; [exact Hids|]. split.
    + intros x Hx Hin. cbn in Hin. apply list_elem_of_singleton in Hin. subst x.
      apply list_elem_of_fmap in Hx as (r & Hid & Hr).
      assert (existsb (fun r0 => bool_decide (EventRow.id r0 = EventRow.id row))
                (Db.events db) = true) as Hyes; [|congruence].
      apply existsb_exists. exists r. split; [apply list_elem_of_In, Hr|].
      apply bool_decide_eq_true. auto.
    + cbn. apply NoDup_singleton.
  - intros k r Hk. destruct (Hcreds k r Hk) as (Hid & r' & Hr' & Hk').
    split; [exact Hid|]. exists r'. split; [apply elem_of_app; auto | exact Hk'].
  - exact Hschemas.
Qed.

Lemma supersede_keys_ok db ev : keys_ok db -> keys_ok (supersede db ev).
Proof.
  intros H. unfold supersede. cbv zeta.
  repeat case_match; repeat apply delete_events_keys_ok; exact H.
Qed.

Lemma alter_keys_ok (f : CredentialRow.t -> CredentialRow.t) k db :
  (forall row, CredentialRow.event_id (f row) = CredentialRow.event_id row) ->
  keys_ok db ->
  keys_ok (Db.mk (Db.events db) (alter f k (Db.credentials db)) (Db.schemas db)).
Proof.
  intros Hf (Hids & Hcreds & Hschemas). split; [exact Hids|]. split; [|exact Hschemas].
  cbn [Db.events Db.credentials]. intros j row. rewrite lookup_alter.
  destruct (decide (k = j)) as [->|Hne]; [|apply Hcreds].
  destruct (Db.credentials db !! j) as [old|] eqn:Hold; [|discriminate].
  cbn. intros [= <-]. rewrite Hf. apply (Hcreds j old Hold).
Qed.

Lemma set_expires_event_id e row :
  CredentialRow.event_id (set_expires e row) = CredentialRow.event_id row.
Proof. unfold set_expires. case_match; reflexivity. Qed.

Lemma index_event_keys_ok d ev :
  keys_ok d ->
  (exists r, r ∈ Db.events d /\ EventRow.id r = NostrEvent.id ev) ->
  keys_ok (snd (index_event d ev)).
Proof.
  intros Hok Hstored. unfold index_event. cbv zeta.
  assert (forall d', (if NostrEvent.kind ev =? EVENT_KINDS.CREDENTIAL_GRANT
                      then indexCredential d ev else Some d) = Some d' -> keys_ok d') as Hix.
  { intros d'. destruct (NostrEvent.kind ev =? EVENT_KINDS.CREDENTIAL_GRANT);
      [|intros [= <-]; exact Hok].
    unfold indexCredential. cbv zeta. intros H.
    repeat (case_match; simplify_eq); try exact Hok.
    destruct Hok as (Hids & Hcreds & Hschemas).
    split; [exact Hids|]. split; [|exact Hschemas].
    cbn [Db.events Db.credentials]. intros k row.
    destruct (decide (NostrEvent.id ev = k)) as [<-|Hne].
    - rewrite lookup_insert_eq. intros [= <-]. split; [reflexivity | exact Hstored].
    - rewrite lookup_insert_ne by exact Hne. apply Hcreds. }
  destruct (if NostrEvent.kind ev =? EVENT_KINDS.CREDENTIAL_GRANT
            then indexCredential d ev else Some d) as [d4|]; [|exact Hok].
  specialize (Hix d4 eq_refl). cbn [snd].
  assert (keys_ok (if NostrEvent.kind ev =? EVENT_KINDS.CREDENTIAL_SCHEMA
                   then cacheSchema d4 ev else d4)) as H5.
  { case_match; [|exact Hix]. unfold cacheSchema. cbv zeta. case_match; [exact Hix|].
    destruct Hix as (Hids & Hcreds & Hschemas). split; [exact Hids|]. split; [exact Hcreds|].
    cbn [Db.schemas]. intros k row.
    match goal with |- <[?ref := _]> _ !! _ = _ -> _ =>
      destruct (decide (ref = k)) as [<-|Hne];
        [rewrite lookup_insert_eq; intros [= <-]; reflexivity
        |rewrite lookup_insert_ne by exact Hne; apply Hschemas]
    end. }
  revert H5. generalize (if NostrEvent.kind ev =? EVENT_KINDS.CREDENTIAL_SCHEMA
                         then cacheSchema d4 ev else d4). intros d5 H5.
  assert (keys_ok (if NostrEvent.kind ev =? EVENT_KINDS.CREDENTIAL_REVOCATION
                   then processRevocation d5 ev else d5)) as H6.
  { case_match; [|exact H5]. unfold processRevocation. cbv zeta.
    repeat case_match; try exact H5. apply alter_keys_ok; [reflexivity | exact H5]. }
  revert H6. generalize (if NostrEvent.kind ev =? EVENT_KINDS.CREDENTIAL_REVOCATION
                         then processRevocation d5 ev else d5). intros d6 H6.
  case_match; [|exact H6]. unfold processRenewal. cbv zeta.
  repeat case_match; try exact H6. apply alter_keys_ok; [apply set_expires_event_id | exact H6].
Qed.

(** X8.  [saveEvent] and [deleteEvent] keep the keys of the store: no two
    event rows share an id, every index row sits under its own event_id
    and refers to a stored event (the foreign key, kept by the cascade),
    and every cached schema sits under its own ref. *)
Theorem keys_ok_kept db :
  keys_ok db ->
  (forall ev, keys_ok (snd (saveEvent db ev)))
  /\ (forall id pubkey, keys_ok (snd (deleteEvent db id pubkey))).
Proof.
  intros Hok. split.
  - intros ev. rewrite saveEvent_steps. apply index_event_keys_ok.
    + apply insert_or_ignore_event_keys_ok, supersede_keys_ok, Hok.
    + apply insert_or_ignore_event_stores.
  - intros id pubkey. cbn [deleteEvent snd]. apply delete_events_keys_ok, Hok.
Qed.

Lemma keys_ok_empty : keys_ok Db.empty.
Proof.
  split; [constructor|]. split; intros k row H; cbn [Db.empty Db.credentials Db.schemas] in H;
    rewrite lookup_empty in H; discriminate.
Qed.

(** X8 from the tables right after [init]. *)
Lemma keys_ok_kept_witness :
  keys_ok Db.empty
  /\ keys_ok (snd (saveEvent Db.empty Sample.director_grant))
  /\ keys_ok (snd (deleteEvent Db.empty Sample.dana Sample.root)).
Proof.
  split; [exact keys_ok_empty|].
  split; [apply (proj1 (keys_ok_kept Db.empty keys_ok_empty))
         |apply (proj2 (keys_ok_kept Db.empty keys_ok_empty))].
Defined.

(** *** Deletion *)

(** X9.  [deleteEvent] returns true exactly when a row with that id and
    author is stored; it removes exactly those rows; the index row of a
    deleted event goes with it and no other index row changes; when it
    returns false the store is unchanged; the schema cache is never
    touched. *)
Theorem deleteEvent_spec db id pubkey :
  let after := snd (deleteEvent db id pubkey) in
  (fst (deleteEvent db id pubkey) = true
   <-> exists row, row ∈ Db.events db
                   /\ EventRow.id row = id /\ EventRow.pubkey row = pubkey)
  /\ (forall row, row ∈ Db.events after
                  <-> row ∈ Db.events db
                      /\ ~ (EventRow.id row = id /\ EventRow.pubkey row = pubkey))
  /\ (fst (deleteEvent db id pubkey) = true -> getCredential after id = None)
  /\ (forall k, k <> id -> getCredential after k = getCredential db k)
  /\ (fst (deleteEvent db id pubkey) = false -> after = db)
  /\ Db.schemas after = Db.schemas db.
Proof.
  cbv zeta. cbn [deleteEvent fst snd].
  set (cond := fun row : EventRow.t =>
                 bool_decide (EventRow.id row = id)
                 && bool_decide (EventRow.pubkey row = pubkey)).
  assert (forall row, cond row = true
                      <-> EventRow.id row = id /\ EventRow.pubkey row = pubkey) as Hcond.
  { intros row. unfold cond. rewrite andb_true_iff, !bool_decide_eq_true. reflexivity. }
  assert (existsb cond (Db.events db) = true
          <-> exists row, row ∈ Db.events db
                          /\ EventRow.id row = id /\ EventRow.pubkey row = pubkey) as Hex.
  { rewrite existsb_exists. split; intros (row & Hin & H); exists row;
      (split; [apply list_elem_of_In, Hin | apply Hcond, H]). }
  split; [exact Hex|]. split; [|split; [|split; [|split]]].
  - intros row. rewrite delete_events_elem, <- Hcond.
    destruct (cond row); intuition congruence.
  - intros Hyes. apply Hex in Hyes as (row & Hin & Hid & Hpk).
    unfold getCredential. cbn [delete_events Db.credentials]. rewrite lookup_cascade.
    rewrite bool_decide_eq_true_2; [reflexivity|].
    apply list_elem_of_fmap. exists row. split; [congruence|].
    apply list_elem_of_In, filter_In. split; [apply list_elem_of_In, Hin|].
    apply Hcond. auto.
  - intros k Hk. unfold getCredential. cbn [delete_events Db.credentials].
    rewrite lookup_cascade. rewrite bool_decide_eq_false_2; [reflexivity|].
    intros Hin. apply list_elem_of_fmap in Hin as (row & Hid & Hr).
    apply list_elem_of_In, filter_In in Hr as [_ Hc]. apply Hcond in Hc as [Hc _].
    congruence.
  - intros Hno. apply delete_events_none. intros row Hin.
    destruct (cond row) eqn:Hc; [|reflexivity].
    rewrite <- Hno. symmetry. apply existsb_exists. exists row.
    split; [apply list_elem_of_In, Hin | exact Hc].
  - reflexivity.
Qed.

(** *** The credential index *)

Lemma falsy_some_false s : JS.falsy (Some s) = false -> s <> EmptyString.
Proof. intros H ->. vm_compute in H. discriminate. Qed.

(** X10.  Round trip through the index: [saveEvent] of a grant whose [a],
    [class] and [p] tags are not empty and whose [issued] tag reads as an
    integer returns true; [getCredential] at its id then returns the row
    built from the tags, with revoked = 0, and
    [getCredentialsByRecipient] of the recipient lists that row. *)
Theorem saveEvent_indexes_grant db ev a c p i issued :
  NostrEvent.kind ev = EVENT_KINDS.CREDENTIAL_GRANT ->
  getTagValue ev "a" = Some a -> a <> EmptyString ->
  getTagValue ev "class" = Some c -> c <> EmptyString ->
  getTagValue ev "p" = Some p -> p <> EmptyString ->
  getTagValue ev "issued" = Some i ->
  JS.parseInt i = Some issued ->
  let row :=
    CredentialRow.mk (NostrEvent.id ev) a c p (NostrEvent.pubkey ev) issued
      (expiresNumeric (getTagValue ev "expires")) (getTagValue ev "chain") 0 None None in
  fst (saveEvent db ev) = true
  /\ getCredential (snd (saveEvent db ev)) (NostrEvent.id ev) = Some row
  /\ row ∈ getCredentialsByRecipient (snd (saveEvent db ev)) p.
Proof.
  intros Hkind Ha Hane Hc Hcne Hp Hpne Hi Hparse row.
  assert (i <> EmptyString) as Hine by (intros ->; vm_compute in Hparse; discriminate).
  assert (forall s, s <> EmptyString -> JS.falsy (Some s) = false) as Hfalsy
    by (intros [|? ?] Hs; [congruence | reflexivity]).
  assert (forall d, indexCredential d ev
                    = Some (Db.mk (Db.events d) (<[NostrEvent.id ev := row]> (Db.credentials d))
                              (Db.schemas d))) as Hix.
  { intros d. unfold indexCredential. cbv zeta.
    rewrite Ha, Hc, Hp, Hi, !Hfalsy by assumption. cbn [orb].
    change (default EmptyString (Some i)) with i. rewrite Hparse. reflexivity. }
  assert (saveEvent db ev
          = (true, Db.mk (Db.events (insert_or_ignore_event (event_row ev) (supersede db ev)))
                     (<[NostrEvent.id ev := row]>
                        (Db.credentials (insert_or_ignore_event (event_row ev) (supersede db ev))))
                     (Db.schemas (insert_or_ignore_event (event_row ev) (supersede db ev)))))
    as Hsave.
  { rewrite saveEvent_steps. unfold index_event. rewrite Hkind.
    change (EVENT_KINDS.CREDENTIAL_GRANT =? EVENT_KINDS.CREDENTIAL_GRANT) with true.
    change (EVENT_KINDS.CREDENTIAL_GRANT =? EVENT_KINDS.CREDENTIAL_SCHEMA) with false.
    change (EVENT_KINDS.CREDENTIAL_GRANT =? EVENT_KINDS.CREDENTIAL_REVOCATION) with false.
    change (EVENT_KINDS.CREDENTIAL_GRANT =? EVENT_KINDS.CREDENTIAL_RENEWAL) with false.
    cbv iota. rewrite Hix. reflexivity. }
  rewrite Hsave. cbn [fst snd]. split; [reflexivity|].
  assert (getCredential
            (Db.mk (Db.events (insert_or_ignore_event (event_row ev) (supersede db ev)))
               (<[NostrEvent.id ev := row]>
                  (Db.credentials (insert_or_ignore_event (event_row ev) (supersede db ev))))
               (Db.schemas (insert_or_ignore_event (event_row ev) (supersede db ev))))
            (NostrEvent.id ev) = Some row) as Hget
    by (unfold getCredential; cbn [Db.credentials]; apply lookup_insert_eq).
  split; [exact Hget|].
  unfold getCredentialsByRecipient. apply list_elem_of_In, filter_In. split.
  - apply list_elem_of_In, list_elem_of_fmap. exists (NostrEvent.id ev, row).
    split; [reflexivity|]. apply elem_of_map_to_list. exact Hget.
  - apply bool_decide_eq_true. reflexivity.
Qed.

(** X10 at the sample director grant. *)
Lemma saveEvent_indexes_grant_witness :
  let after := snd (saveEvent Db.empty Sample.director_grant) in
  let row :=
    CredentialRow.mk (Sample.key "6") Sample.cached_ref "director" Sample.dana Sample.root
      1000 (Some 2000) None 0 None None in
  fst (saveEvent Db.empty Sample.director_grant) = true
  /\ getCredential after (Sample.key "6") = Some row
  /\ row ∈ getCredentialsByRecipient after Sample.dana.
Proof.
  apply (saveEvent_indexes_grant Db.empty Sample.director_grant Sample.cached_ref "director"
           Sample.dana "1000" 1000);
    first [reflexivity | vm_compute; discriminate].
Defined.

(** *** Revocations and renewals on the index *)

Lemma set_expires_revoked e row :
  CredentialRow.revoked (set_expires e row) = CredentialRow.revoked row.
Proof. unfold set_expires. case_match; reflexivity. Qed.

Lemma alter_index_kept (f : CredentialRow.t -> CredentialRow.t) k db :
  (forall row, same_grant row (f row)) ->
  index_kept db (Db.mk (Db.events db) (alter f k (Db.credentials db)) (Db.schemas db)).
Proof.
  intros Hf. split; [reflexivity|]. split; [reflexivity|].
  intros j. unfold getCredential. cbn [Db.credentials]. rewrite lookup_alter.
  destruct (decide (k = j)) as [->|Hne].
  - destruct (Db.credentials db !! j) as [row|]; cbn; [apply Hf | exact I].
  - destruct (Db.credentials db !! j) as [row|]; [|exact I].
    repeat split; auto.
Qed.

Lemma index_kept_refl db : index_kept db db.
Proof.
  split; [reflexivity|]. split; [reflexivity|]. intros k.
  destruct (getCredential db k); [repeat split; auto | exact I].
Qed.

(** X11.  [processRevocation] and [processRenewal] add and remove no index
    row and leave the events and the schema cache alone; of a row they
    change neither event id, schema, class, recipient, issuer, issuance
    time nor chain reference, and a revoked flag that is set stays set.
    A row that is not flagged after [processRevocation] is a row it did
    not touch. *)
Theorem revocation_and_renewal_keep_the_rows db ev :
  index_kept db (processRevocation db ev)
  /\ index_kept db (processRenewal db ev)
  /\ (forall k row, getCredential (processRevocation db ev) k = Some row ->
        CredentialRow.revoked row = 0 ->
        getCredential db k = Some row).
Proof.
  split; [|split].
  - unfold processRevocation. cbv zeta.
    repeat case_match; try apply index_kept_refl.
    apply alter_index_kept. intros row. repeat split; try reflexivity. intros _. cbn. lia.
  - unfold processRenewal. cbv zeta.
    repeat case_match; try apply index_kept_refl.
    apply alter_index_kept. intros row. unfold set_expires.
    case_match; repeat split; auto.
  - intros k row. unfold processRevocation. cbv zeta.
    repeat case_match; try (intros Hk _; exact Hk).
    unfold getCredential. cbn [Db.credentials]. rewrite lookup_alter.
    destruct (decide _) as [Heq|Hne]; [|intros Hk _; exact Hk].
    destruct (Db.credentials db !! _); simpl; [|discriminate].
    intros [= <-]. simpl. discriminate.
Qed.

(** *** Queries *)

Lemma insert_desc_elem row sorted r :
  r ∈ insert_desc row sorted <-> r = row \/ r ∈ sorted.
Proof.
  induction sorted as [|x l IH]; cbn [insert_desc].
  - rewrite list_elem_of_singleton, elem_of_nil. tauto.
  - destruct (EventRow.created_at row <? EventRow.created_at x).
    + rewrite !elem_of_cons, IH. tauto.
    + rewrite !elem_of_cons. tauto.
Qed.

Lemma order_by_created_at_desc_elem rows r :
  r ∈ order_by_created_at_desc rows <-> r ∈ rows.
Proof.
  unfold order_by_created_at_desc. induction rows as [|x l IH]; cbn [foldr].
  - reflexivity.
  - rewrite insert_desc_elem, elem_of_cons, IH. reflexivity.
Qed.

Lemma insert_desc_sorted row sorted :
  newest_first (map EventRow.created_at sorted) ->
  newest_first (map EventRow.created_at (insert_desc row sorted)).
Proof.
  induction sorted as [|x l IH]; cbn [insert_desc map newest_first].
  - intros _. split; [constructor | exact I].
  - intros [Hall Hl].
    destruct (Z.ltb_spec (EventRow.created_at row) (EventRow.created_at x)) as [Hlt|Hge];
      cbn [map newest_first].
    + split; [|apply IH, Hl].
      apply Forall_forall. intros y Hy. apply list_elem_of_fmap in Hy as (r & -> & Hr).
      apply insert_desc_elem in Hr as [->|Hr]; [lia|].
      rewrite Forall_forall in Hall. apply Hall, list_elem_of_fmap. eauto.
    + split; [|split; assumption].
      constructor; [exact Hge|].
      rewrite Forall_forall in Hall |- *. intros y Hy. specialize (Hall y Hy). lia.
Qed.

Lemma order_by_created_at_desc_sorted rows :
  newest_first (map EventRow.created_at (order_by_created_at_desc rows)).
Proof.
  unfold order_by_created_at_desc. induction rows as [|x l IH]; cbn [foldr].
  - exact I.
  - apply insert_desc_sorted, IH.
Qed.

Lemma newest_first_app (l1 l2 : list Z) :
  newest_first (l1 ++ l2) ->
  newest_first l1 /\ forall x y, x ∈ l1 -> y ∈ l2 -> y <= x.
Proof.
  induction l1 as [|a l1 IH]; cbn [app newest_first].
  - intros _. split; [exact I|]. intros x y Hx. apply elem_of_nil in Hx. contradiction.
  - intros [Hall Hrest]. destruct (IH Hrest) as [Hs Hcross].
    apply Forall_app in Hall as [Hall1 Hall2].
    split; [split; assumption|].
    intros x y Hx Hy. apply elem_of_cons in Hx as [->|Hx]; [|apply Hcross; assumption].
    rewrite Forall_forall in Hall2. apply Hall2, Hy.
Qed.

Lemma newest_first_take n (l : list EventRow.t) :
  newest_first (map EventRow.created_at l) ->
  newest_first (map EventRow.created_at (take n l))
  /\ forall x y, x ∈ take n l -> y ∈ drop n l ->
       EventRow.created_at y <= EventRow.created_at x.
Proof.
  rewrite <- (take_drop n l) at 1. rewrite map_app. intros H.
  apply newest_first_app in H as [Hs Hcross]. split; [exact Hs|].
  intros x y Hx Hy. apply Hcross; apply list_elem_of_fmap; eauto.
Qed.

Lemma created_at_row_event (rows : list EventRow.t) :
  map NostrEvent.created_at (map row_event rows) = map EventRow.created_at rows.
Proof. rewrite map_map. reflexivity. Qed.

Section QueryResults.
Context {rt : Runtime}.

(** X12.  [queryEvents] returns stored rows that satisfy its WHERE clause,
    newest first, and at most [limit] of them when the limit (500 by
    default) is not negative; a stored row that satisfies the clause is
    returned unless the result is full, and then every returned event is
    at least as new as that row. *)
Theorem queryEvents_spec (db : Db.t) (wall : Z) (filter : Filter.t) :
  let result := queryEvents db wall filter in
  let limit := default 500 (Filter.limit filter) in
  (forall e, e ∈ result ->
     exists row, row ∈ Db.events db /\ matches wall filter row = true /\ e = row_event row)
  /\ newest_first (map NostrEvent.created_at result)
  /\ (0 <= limit -> Z.of_nat (length result) <= limit)
  /\ (forall row, row ∈ Db.events db -> matches wall filter row = true ->
        row_event row ∈ result
        \/ (Z.of_nat (length result) = limit
            /\ forall e, e ∈ result -> EventRow.created_at row <= NostrEvent.created_at e)).
Proof.
  cbv zeta. unfold queryEvents. cbv zeta.
  set (limit := default 500 (Filter.limit filter)).
  set (found := order_by_created_at_desc (List.filter (matches wall filter) (Db.events db))).
  assert (forall row, row ∈ found
                      <-> row ∈ Db.events db /\ matches wall filter row = true) as Hfound.
  { intros row. unfold found.
    rewrite order_by_created_at_desc_elem, !list_elem_of_In, filter_In. reflexivity. }
  pose proof (order_by_created_at_desc_sorted
                (List.filter (matches wall filter) (Db.events db))) as Hsorted.
  fold found in Hsorted.
  unfold sql_limit. destruct (Z.ltb_spec limit 0) as [Hneg|Hpos].
  - split; [|split; [|split]].
    + intros e He. apply list_elem_of_fmap in He as (row & -> & Hrow).
      apply Hfound in Hrow as [Hin Hm]. eauto.
    + rewrite created_at_row_event. exact Hsorted.
    + lia.
    + intros row Hin Hm. left. apply list_elem_of_fmap. exists row.
      split; [reflexivity | apply Hfound; auto].
  - destruct (newest_first_take (Z.to_nat limit) found Hsorted) as [Htake Hcross].
    split; [|split; [|split]].
    + intros e He. apply list_elem_of_fmap in He as (row & -> & Hrow).
      apply elem_of_take in Hrow as (i & Hrow & _).
      apply list_elem_of_lookup_2, Hfound in Hrow as [Hin Hm]. eauto.
    + rewrite created_at_row_event. exact Htake.
    + intros _. rewrite length_map, length_take. lia.
    + intros row Hin Hm.
      assert (row ∈ found) as Hrow by (apply Hfound; auto).
      rewrite <- (take_drop (Z.to_nat limit) found) in Hrow.
      apply elem_of_app in Hrow as [Hrow|Hrow].
      * left. apply list_elem_of_fmap. eauto.
      * right. split.
        -- rewrite length_map, length_take.
           assert (Z.to_nat limit < length found)%nat; [|lia].
           destruct (Nat.lt_ge_cases (Z.to_nat limit) (length found)) as [Hl|Hl];
             [exact Hl|].
           rewrite drop_ge in Hrow by exact Hl. apply elem_of_nil in Hrow. contradiction.
        -- intros e He. apply list_elem_of_fmap in He as (x & -> & Hx).
           apply (Hcross x row Hx Hrow).
Qed.

Lemma matches_current_grant wall pubkey dTag row :
  matches wall
    (Filter.mk None (Some [pubkey]) (Some [EVENT_KINDS.CREDENTIAL_GRANT])
       None None None (Some [dTag]) None None (Some 1)) row = true
  <-> current_grant wall pubkey dTag row.
Proof.
  unfold matches, current_grant.
  cbn [Filter.ids Filter.authors Filter.kinds Filter.tag_e Filter.tag_p Filter.tag_a
       Filter.tag_d Filter.since Filter.until given default andb]. unfold id.
  rewrite !andb_true_r, !andb_true_iff, !bool_decide_eq_true, !list_elem_of_singleton.
  destruct (EventRow.d_tag row) as [d|]; destruct (EventRow.expires_at row) as [e|].
  - rewrite bool_decide_eq_true, list_elem_of_singleton, Z.ltb_lt.
    split.
    + intros [[[Hp Hk] ->] He]. repeat split; auto. intros ? [= <-]. exact He.
    + intros (Hk & Hp & [= ->] & He). repeat split; auto.
  - rewrite bool_decide_eq_true, list_elem_of_singleton.
    split.
    + intros [[[Hp Hk] ->] _]. repeat split; auto. discriminate.
    + intros (Hk & Hp & [= ->] & He). repeat split; auto.
  - split; [intros [[_ H] _]; discriminate | intros (_ & _ & H & _); discriminate].
  - split; [intros [[_ H] _]; discriminate | intros (_ & _ & H & _); discriminate].
Qed.

(** X13.  [findCredentialEvent] returns a stored grant of the given author
    at the given [d] tag whose expiration has not passed, and none of
    these is newer than the one returned; it returns null exactly when
    there is none. *)
Theorem findCredentialEvent_newest (db : Db.t) (wall : Z) (pubkey dTag : string) :
  match CredentialVerifier.findCredentialEvent db wall pubkey dTag with
  | Some e =>
      exists row, row ∈ Db.events db /\ e = row_event row
                  /\ current_grant wall pubkey dTag row
                  /\ forall row', row' ∈ Db.events db ->
                                  current_grant wall pubkey dTag row' ->
                                  EventRow.created_at row' <= EventRow.created_at row
  | None => forall row, row ∈ Db.events db -> ~ current_grant wall pubkey dTag row
  end.
Proof.
  unfold CredentialVerifier.findCredentialEvent, queryEvents. cbv zeta.
  cbn [Filter.limit default sql_limit Z.ltb Z.compare Z.to_nat Pos.to_nat Pos.iter_op].
  set (f := Filter.mk None (Some [pubkey]) (Some [EVENT_KINDS.CREDENTIAL_GRANT])
              None None None (Some [dTag]) None None (Some 1)).
  set (found := order_by_created_at_desc (List.filter (matches wall f) (Db.events db))).
  assert (forall row, row ∈ found
                      <-> row ∈ Db.events db /\ current_grant wall pubkey dTag row) as Hfound.
  { intros row. unfold found.
    rewrite order_by_created_at_desc_elem, !list_elem_of_In, filter_In.
    unfold f. rewrite matches_current_grant. reflexivity. }
  pose proof (order_by_created_at_desc_sorted
                (List.filter (matches wall f) (Db.events db))) as Hsorted.
  fold found in Hsorted.
  destruct found as [|row rest].
  - cbn. intros row Hin Hcur.
    assert (row ∈ []) as H by (apply Hfound; auto). apply elem_of_nil in H. exact H.
  - cbn [take map head]. exists row.
    destruct (proj1 (Hfound row)) as [Hin Hcur]; [apply elem_of_cons; auto|].
    split; [exact Hin|]. split; [reflexivity|]. split; [exact Hcur|].
    intros row' Hin' Hcur'.
    assert (row' ∈ row :: rest) as H by (apply Hfound; auto).
    apply elem_of_cons in H as [->|H]; [lia|].
    cbn [map newest_first] in Hsorted. destruct Hsorted as [Hall _].
    rewrite Forall_forall in Hall. apply Hall, list_elem_of_fmap. eauto.
Qed.

(** *** Subscriptions *)

Lemma req_step_ok sent state events :
  req_ok sent state -> req_ok (sent ++ events) (req_step state events).
Proof.
  revert sent state. induction events as [|e events IH]; intros sent state Hok.
  - rewrite app_nil_r. exact Hok.
  - replace (sent ++ e :: events)%list with ((sent ++ [e]) ++ events)%list
      by (rewrite <- app_assoc; reflexivity).
    cbn [req_step foldl]. apply IH.
    destruct Hok as (Hseen & Hsame & Hids & Hsub & Hall).
    case_bool_decide as Hin.
    + repeat split; try assumption; try apply Hsame.
      * intros x Hx. apply elem_of_app. left. apply Hsub, Hx.
      * intros x Hx. apply elem_of_app in Hx as [Hx|Hx]; [apply Hall, Hx|].
        apply list_elem_of_singleton in Hx. subst x. exact Hin.
    + unfold req_ok. cbn [fst snd]. split; [apply NoDup_cons; auto|].
      split; [|split; [|split]].
      * intros i. rewrite map_app, elem_of_cons, elem_of_app, Hsame. cbn [map].
        rewrite list_elem_of_singleton. tauto.
      * rewrite map_app. apply NoDup_app. split; [exact Hids|]. split.
        -- intros x Hx Hx'. cbn [map] in Hx'. apply list_elem_of_singleton in Hx'. subst x.
           apply Hin, Hsame, Hx.
        -- cbn [map]. apply NoDup_singleton.
      * intros x Hx. apply elem_of_app in Hx as [Hx|Hx]; apply elem_of_app; [left|right]; auto.
      * intros x Hx. apply elem_of_cons.
        apply elem_of_app in Hx as [Hx|Hx]; [right; apply Hall, Hx|].
        apply list_elem_of_singleton in Hx. subst x. left. reflexivity.
Qed.

(** X14.  [handleReq] sends no id twice; every event it sends is a result of
    [queryEvents] for one of the filters, and the id of every such result
    is sent. *)
Theorem handleReq_sends_each_id_once (db : Db.t) (wall : Z) (filters : list Filter.t) :
  NoDup (map NostrEvent.id (handleReq db wall filters))
  /\ (forall e, e ∈ handleReq db wall filters ->
        exists filter, filter ∈ filters /\ e ∈ queryEvents db wall filter)
  /\ (forall filter e, filter ∈ filters -> e ∈ queryEvents db wall filter ->
        NostrEvent.id e ∈ map NostrEvent.id (handleReq db wall filters)).
Proof.
  unfold handleReq.
  assert (forall fs state sent,
            req_ok sent state ->
            req_ok (sent ++ concat (map (queryEvents db wall) fs))
              (foldl (fun state filter => req_step state (queryEvents db wall filter))
                 state fs)) as Hfold.
  { induction fs as [|f fs IH]; intros state sent Hok.
    - cbn. rewrite app_nil_r. exact Hok.
    - cbn [foldl map concat]. rewrite app_assoc. apply IH, req_step_ok, Hok. }
  specialize (Hfold filters ([], []) []).
  destruct Hfold as (Hseen & Hsame & Hids & Hsub & Hall).
  { repeat split; cbn; try constructor; try tauto;
      intros ? H; apply elem_of_nil in H; contradiction. }
  cbn [app] in Hsub, Hall.
  split; [exact Hids|]. split.
  - intros e He. apply Hsub, list_elem_of_In, in_concat in He as (l & Hl & He).
    apply in_map_iff in Hl as (f & <- & Hf).
    exists f. split; apply list_elem_of_In; assumption.
  - intros f e Hf He. apply Hsame, Hall. apply list_elem_of_In, in_concat.
    exists (queryEvents db wall f). split; [|apply list_elem_of_In, He].
    apply in_map, list_elem_of_In, Hf.
Qed.

(** *** The live filter against the stored one *)

(** X15.  For a filter without [#e] and [#p] conditions, and an event whose
    [a] and [d] tag values are not the empty string and whose expiration,
    if any, lies after the clock, the test that [broadcast] applies to a
    new event ([matchesFilter]) agrees with the WHERE clause that
    [queryEvents] builds, read on the row that [saveEvent] stores. *)
Theorem matchesFilter_agrees_with_query (wall : Z) (event : NostrEvent.t) (filter : Filter.t) :
  given (Filter.tag_e filter) = false ->
  given (Filter.tag_p filter) = false ->
  getTagValue event "a" <> Some EmptyString ->
  getTagValue event "d" <> Some EmptyString ->
  (forall e, EventRow.expires_at (event_row event) = Some e -> wall < e) ->
  matchesFilter event filter = matches wall filter (event_row event).
Proof.
  intros He Hp Ha Hd Hexp. unfold matchesFilter, matches.
  cbn [event_row EventRow.id EventRow.pubkey EventRow.kind EventRow.created_at
       EventRow.a_tag EventRow.d_tag EventRow.tags].
  rewrite He, Hp. cbn [andb].
  assert (match EventRow.expires_at (event_row event) with
          | Some e => wall <? e
          | None => true
          end = true) as ->.
  { destruct (EventRow.expires_at (event_row event)) as [e|]; [|reflexivity].
    apply Z.ltb_lt, Hexp. reflexivity. }
  rewrite andb_true_r.
  assert (forall (tag : option string) (xs : option (list string)),
            tag <> Some EmptyString ->
            given xs && (JS.falsy tag || negb (JS.includes (default [] xs) (default EmptyString tag)))
            = negb (if given xs
                    then match tag with
                         | Some a => bool_decide (a ∈ default [] xs)
                         | None => false
                         end
                    else true)) as Htag.
  { intros tag xs Hne. destruct (given xs); [|reflexivity]. cbn [andb].
    destruct tag as [[|c s]|]; [congruence | reflexivity | reflexivity]. }
  rewrite (Htag _ _ Ha), (Htag _ _ Hd). clear Htag.
  set (Xa := if given (Filter.tag_a filter) then _ else true).
  set (Xd := if given (Filter.tag_d filter) then _ else true).
  clearbody Xa Xd.
  assert (match Filter.since filter with
          | Some since => since <=? NostrEvent.created_at event
          | None => true
          end
          = negb match Filter.since filter with
                 | Some since => NostrEvent.created_at event <? since
                 | None => false
                 end) as ->
    by (destruct (Filter.since filter); [apply Z.leb_antisym | reflexivity]).
  assert (match Filter.until filter with
          | Some until => NostrEvent.created_at event <=? until
          | None => true
          end
          = negb match Filter.until filter with
                 | Some until => until <? NostrEvent.created_at event
                 | None => false
                 end) as ->
    by (destruct (Filter.until filter); [apply Z.leb_antisym | reflexivity]).
  generalize (match Filter.since filter with
              | Some since => NostrEvent.created_at event <? since
              | None => false
              end)
             (match Filter.until filter with
              | Some until => until <? NostrEvent.created_at event
              | None => false
              end)
             (bool_decide (NostrEvent.id event ∈ default [] (Filter.ids filter)))
             (bool_decide (NostrEvent.pubkey event ∈ default [] (Filter.authors filter)))
             (bool_decide (NostrEvent.kind event ∈ default [] (Filter.kinds filter)))
             (given (Filter.ids filter)) (given (Filter.authors filter))
             (given (Filter.kinds filter)).
  intros b1 b2 b3 b4 b5 b6 b7 b8.
  destruct b1, b2, b3, b4, b5, b6, b7, b8, Xa, Xd; reflexivity.
Qed.

End QueryResults.

(** X15 at dana's profile and a filter on kind and author. *)
Lemma matchesFilter_agrees_with_query_witness :
  matchesFilter Sample.profile_new
    (Sample.by_kind_and_author EVENT_KINDS.METADATA Sample.dana)
  = matches (rt := Sample.runtime) 0
      (Sample.by_kind_and_author EVENT_KINDS.METADATA Sample.dana)
      (event_row Sample.profile_new).
Proof.
  apply (matchesFilter_agrees_with_query (rt := Sample.runtime) 0 Sample.profile_new
           (Sample.by_kind_and_author EVENT_KINDS.METADATA Sample.dana));
    first [reflexivity | vm_compute; discriminate].
Defined.

(** *** Admission of a grant *)

Section AdmissionResults.
Context {rt : Runtime}.

Lemma falsy_false (tag : option string) :
  JS.falsy tag = false <-> exists s, tag = Some s /\ s <> EmptyString.
Proof.
  destruct tag as [[|c s]|]; cbn; split; try discriminate.
  - intros (s & [= <-] & Hs). congruence.
  - intros _. eexists. split; [reflexivity | discriminate].
  - intros _. reflexivity.
  - intros (s & Hs & _). discriminate.
Qed.

(** X16.  [validateCredentialGrant] accepts a grant exactly when its [a],
    [class], [p], [issued], [expires] and [d] tags are present and not
    empty, the schema at the [a] tag is cached and decodes, the class is
    in it, and either [expires] is "perpetual" and the class has no
    max_days, or [expires] and [issued] read as integers and, when the
    class has max_days, expires is at most issued + max_days * 86400. *)
Theorem validateCredentialGrant_spec (db : Db.t) (event : NostrEvent.t) :
  Validation.valid (validateCredentialGrant db event) = true
  <-> exists a c p i x d schema classDef,
        (getTagValue event "a" = Some a /\ a <> EmptyString)
        /\ (getTagValue event "class" = Some c /\ c <> EmptyString)
        /\ (getTagValue event "p" = Some p /\ p <> EmptyString)
        /\ (getTagValue event "issued" = Some i /\ i <> EmptyString)
        /\ (getTagValue event "expires" = Some x /\ x <> EmptyString)
        /\ (getTagValue event "d" = Some d /\ d <> EmptyString)
        /\ CredentialVerifier.getSchema db a = Some schema
        /\ CredentialSchema.classes schema !! c = Some classDef
        /\ ((x = "perpetual"
             /\ CredentialClass.max_days (CredentialClass.expiry classDef) = None)
            \/ (x <> "perpetual"
                /\ exists expires issued,
                     JS.parseInt x = Some expires
                     /\ JS.parseInt i = Some issued
                     /\ forall days,
                          CredentialClass.max_days (CredentialClass.expiry classDef)
                          = Some days ->
                          expires <= issued + days * 86400)).
Proof.
  unfold validateCredentialGrant. cbv zeta. split.
  - intros H.
    repeat match type of H with
           | Validation.valid (if JS.falsy ?t then _ else _) = true =>
               let E := fresh "E" in
               destruct (JS.falsy t) eqn:E; [cbn in H; discriminate H|];
               apply falsy_false in E; destruct E as (? & E & ?); try rewrite E in H
           end.
    cbn [default] in H. unfold id in H.
    match type of H with
    | context [CredentialVerifier.getSchema db ?a] =>
        destruct (CredentialVerifier.getSchema db a) as [schema|] eqn:Hschema;
          [|cbn in H; discriminate H]
    end.
    match type of H with
    | context [CredentialSchema.classes schema !! ?c] =>
        destruct (CredentialSchema.classes schema !! c) as [classDef|] eqn:Hclass;
          [|cbn in H; discriminate H]
    end.
    eexists _, _, _, _, _, _, schema, classDef.
    repeat (split; [split; [eassumption | assumption]|]).
    split; [exact Hschema|]. split; [exact Hclass|].
    case_bool_decide as Hperp; cbn [negb] in H.
    + left. destruct (CredentialClass.max_days _); [cbn in H; discriminate H|]. split; congruence.
    + right. split; [congruence|].
      destruct (JS.parseInt _) as [expires|] eqn:Hexp in H; [|cbn in H; discriminate H].
      destruct (JS.parseInt _) as [issued|] eqn:Hiss in H; [|cbn in H; discriminate H].
      exists expires, issued. split; [exact Hexp|]. split; [exact Hiss|].
      intros days Hdays. rewrite Hdays in H.
      destruct (Z.ltb_spec (issued + days * 86400) expires); [cbn in H; discriminate H | lia].
  - intros (a & c & p & i & x & d & schema & classDef & [Ha Hane] & [Hc Hcne] & [Hp Hpne]
            & [Hi Hine] & [Hx Hxne] & [Hd Hdne] & Hschema & Hclass & Hexpiry).
    assert (forall s, s <> EmptyString -> JS.falsy (Some s) = false) as Hfalsy
      by (intros [|? ?] Hs; [congruence | reflexivity]).
    rewrite Ha, Hc, Hp, Hi, Hx, Hd, !Hfalsy by assumption.
    cbn [default]. unfold id. rewrite Hschema, Hclass.
    destruct Hexpiry as [[-> Hmax] | (Hperp & expires & issued & Hexp & Hiss & Hmax)].
    + rewrite bool_decide_eq_true_2 by reflexivity. cbn [negb]. rewrite Hmax. reflexivity.
    + rewrite bool_decide_eq_false_2 by congruence. cbn [negb]. rewrite Hexp, Hiss.
      destruct (CredentialClass.max_days _) as [days|]; [|reflexivity].
      specialize (Hmax days eq_refl).
      destruct (Z.ltb_spec (issued + days * 86400) expires); [lia | reflexivity].
Qed.

(** *** Verification *)

Lemma verifyChain_rec_now fuel : forall db wall ip ci cc al cr sc rp now now' depth,
  CredentialVerifier.verifyChain_rec fuel db wall ip ci cc al cr sc rp now depth
  = CredentialVerifier.verifyChain_rec fuel db wall ip ci cc al cr sc rp now' depth.
Proof.
  induction fuel as [|fuel IH]; intros db wall ip ci cc al cr sc rp now now' depth;
    cbn [CredentialVerifier.verifyChain_rec]; [reflexivity|].
  walk_cases; try reflexivity.
  all: repeat match goal with
         | H : CredentialVerifier.verifyChain_rec ?fl ?a ?b ?c ?d ?e ?f ?g ?h ?i ?n1 ?k = _,
           H' : CredentialVerifier.verifyChain_rec ?fl ?a ?b ?c ?d ?e ?f ?g ?h ?i ?n2 ?k = _
           |- _ =>
             rewrite (IH a b c d e f g h i n1 n2 k) in H; rewrite H in H'; simplify_eq
         end.
  all: reflexivity.
Qed.

Lemma verifyChain_traced_now db wall ip ci cc al cr sc rp now now' depth :
  CredentialVerifier.verifyChain_traced db wall ip ci cc al cr sc rp now depth
  = CredentialVerifier.verifyChain_traced db wall ip ci cc al cr sc rp now' depth.
Proof. apply verifyChain_rec_now. Qed.

Lemma omap_upstream_cons c U rest :
  omap Lookup.upstream (Lookup.mk c (Some U) :: rest) = U :: omap Lookup.upstream rest.
Proof. reflexivity. Qed.

(** The walk authorises what it reports VALID. *)
Lemma verifyChain_rec_authorised fuel : forall db wall ip ci cc al cr sc rp now depth n log,
  CredentialVerifier.verifyChain_rec fuel db wall ip ci cc al cr sc rp now depth
    = Some (VALID n, log) ->
  authorised sc rp ip cc al (omap Lookup.upstream log).
Proof.
  induction fuel as [|fuel IH]; intros db wall ip ci cc al cr sc rp now depth n log H;
    cbn [CredentialVerifier.verifyChain_rec] in H; walk_cases.
  all: try use_walk_IH IH.
  all: try match goal with
           | Hrec : CredentialVerifier.verifyChain_rec _ _ _ _ _ _ _ _ _ _ _ _ = _ |- _ =>
               specialize (IHwalk _ _ Hrec)
           end.
  all: repeat match goal with
         | H : negb _ = false |- _ => apply negb_false_iff in H
         | H : _ && _ = true |- _ => apply andb_true_iff in H; destruct H
         | H : bool_decide _ = true |- _ => apply bool_decide_eq_true in H
         | H : JS.includes _ _ = true |- _ => apply bool_decide_eq_true in H
         | H : JS.falsy (getTagValue ?U "class") = false |- _ =>
             apply falsy_false in H; destruct H as (? & H & _); rewrite H in *
         end.
  all: cbn [default] in *; unfold id in *.
  all: cbn [app]; rewrite omap_upstream_cons; cbn [authorised].
  all: split; [assumption|]; eexists _, _; repeat (split; [eassumption|]).
  all: try assumption.
  all: match goal with
       | IHwalk : authorised _ _ _ _ _ ?l |- _ =>
           destruct l; [destruct IHwalk | exact IHwalk]
       end.
Qed.

Lemma findCredentialEvent_stored db wall pubkey dTag e :
  CredentialVerifier.findCredentialEvent db wall pubkey dTag = Some e ->
  exists row, row ∈ Db.events db /\ e = row_event row
              /\ current_grant wall pubkey dTag row.
Proof.
  unfold CredentialVerifier.findCredentialEvent, queryEvents. cbv zeta.
  cbn [Filter.limit default sql_limit Z.ltb Z.compare Z.to_nat Pos.to_nat Pos.iter_op].
  intros H.
  destruct (order_by_created_at_desc _) as [|row rest] eqn:Hfound; [discriminate H|].
  cbn in H. injection H as <-. exists row.
  assert (row ∈ row :: rest) as Hin by (apply elem_of_cons; auto).
  rewrite <- Hfound, order_by_created_at_desc_elem, list_elem_of_In, filter_In in Hin.
  destruct Hin as [Hin Hm]. apply matches_current_grant in Hm.
  split; [apply list_elem_of_In, Hin|]. split; [reflexivity | exact Hm].
Qed.

(** Every grant the walk looked up is a stored grant. *)
Lemma verifyChain_rec_stored fuel : forall db wall ip ci cc al cr sc rp now depth r log,
  CredentialVerifier.verifyChain_rec fuel db wall ip ci cc al cr sc rp now depth
    = Some (r, log) ->
  Forall (fun U => exists row, row ∈ Db.events db /\ U = row_event row
                               /\ EventRow.kind row = EVENT_KINDS.CREDENTIAL_GRANT)
    (omap Lookup.upstream log).
Proof.
  induction fuel as [|fuel IH]; intros db wall ip ci cc al cr sc rp now depth r log H;
    cbn [CredentialVerifier.verifyChain_rec] in H; walk_cases.
  all: try use_walk_IH IH.
  all: try match goal with
           | Hrec : CredentialVerifier.verifyChain_rec _ _ _ _ _ _ _ _ _ _ _ _ = _ |- _ =>
               specialize (IHwalk _ _ Hrec)
           end.
  all: try (constructor; fail).
  all: cbn [app]; rewrite ?omap_upstream_cons.
  all: try (constructor; [|first [exact IHwalk | constructor]]).
  all: try match goal with
           | Hfind : CredentialVerifier.findCredentialEvent _ _ _ _ = Some _ |- _ =>
               apply findCredentialEvent_stored in Hfind;
               destruct Hfind as (row & Hin & -> & Hkind & _); exists row; auto
           end.
Qed.

(** X17.  When [verify] returns VALID with chain depth n, the schema at the
    [a] tag of the grant is cached, the class of the grant is in it and
    the [a] tag parses; the walk made n lookups and the grants it found
    are stored events of the grant kind.  With no upstream grant, the
    class may be issued by the root and the grant is signed by the pubkey
    of the schema address.  Otherwise the upstream grants form an
    authorised chain: each is made out ([p] tag) to the author of the
    grant below it, for a class that is among the issuers allowed for the
    class below and has that class in its scope, and the last is signed
    by the root for a class the root may issue. *)
Theorem verify_valid_is_authorised (db : Db.t) (wall : Z) (g : NostrEvent.t) (now n : Z)
    (log : list Lookup.t) :
  CredentialVerifier.verify_traced db wall g now = Some (VALID n, log) ->
  exists a c schema classDef info,
    getTagValue g "a" = Some a
    /\ getTagValue g "class" = Some c
    /\ CredentialVerifier.getSchema db a = Some schema
    /\ CredentialSchema.classes schema !! c = Some classDef
    /\ parseATag a = Some info
    /\ Z.of_nat (length log) = n
    /\ Forall (fun U => exists row, row ∈ Db.events db /\ U = row_event row
                                    /\ EventRow.kind row = EVENT_KINDS.CREDENTIAL_GRANT)
         (omap Lookup.upstream log)
    /\ match omap Lookup.upstream log with
       | [] =>
           "root" ∈ CredentialClass.issued_by classDef
           /\ NostrEvent.pubkey g = ATag.pubkey info
       | U :: rest =>
           authorised schema (ATag.pubkey info) (NostrEvent.pubkey g) c
             (CredentialClass.issued_by classDef) (U :: rest)
       end.
Proof.
  unfold CredentialVerifier.verify_traced. cbv zeta. intros H.
  destruct (negb _); [discriminate H|].
  destruct (_ || _) eqn:Htags; [discriminate H|].
  apply orb_false_elim in Htags as [Htags Hi]. apply orb_false_elim in Htags as [Ha Hc].
  apply falsy_false in Ha as (a & Ha & _). apply falsy_false in Hc as (c & Hc & _).
  rewrite Ha, Hc in H. cbn [default] in H. unfold id in H.
  destruct (CredentialVerifier.revoked_row _); [discriminate H|].
  destruct (_ ≫= _); [discriminate H|].
  destruct (CredentialVerifier.getSchema db a) as [schema|] eqn:Hschema; [|discriminate H].
  destruct (CredentialSchema.classes schema !! c) as [classDef|] eqn:Hclass;
    [|discriminate H].
  destruct (parseATag a) as [info|] eqn:Hinfo; [|discriminate H].
  exists a, c, schema, classDef, info.
  repeat (split; [first [assumption | reflexivity]|]).
  destruct (_ && _) eqn:Hroot.
  - injection H as <- <-. apply andb_true_iff in Hroot as [Hr Hp].
    apply bool_decide_eq_true in Hr, Hp.
    split; [reflexivity|]. split; [constructor|]. split; assumption.
  - destruct (JS.falsy (getTagValue g "chain")); [discriminate H|].
    unfold CredentialVerifier.verifyChain_traced in H.
    pose proof (verifyChain_rec_valid _ _ _ _ _ _ _ _ _ _ _ _ _ _ H)
      as (_ & _ & Hsome & Hn & Hlen).
    pose proof (verifyChain_rec_authorised _ _ _ _ _ _ _ _ _ _ _ _ _ _ H) as Hauth.
    pose proof (verifyChain_rec_stored _ _ _ _ _ _ _ _ _ _ _ _ _ _ H) as Hstored.
    split; [lia|]. split; [exact Hstored|].
    destruct (omap Lookup.upstream log); [destruct Hauth | exact Hauth].
Qed.

(** A deadline that has passed stays passed. *)
Lemma expiry_later (eff : option Z) (now now' e : Z) :
  now <= now' ->
  eff ≫= (fun e => if e <? now then Some e else None) = Some e ->
  eff ≫= (fun e => if e <? now' then Some e else None) = Some e.
Proof.
  intros Hle. destruct eff as [x|]; cbn; [|discriminate].
  destruct (Z.ltb_spec x now); [|discriminate]. intros [= <-].
  destruct (Z.ltb_spec x now'); [reflexivity | lia].
Qed.

Lemma expiry_earlier (eff : option Z) (now now' : Z) :
  now <= now' ->
  eff ≫= (fun e => if e <? now' then Some e else None) = None ->
  eff ≫= (fun e => if e <? now then Some e else None) = None.
Proof.
  intros Hle. destruct eff as [x|]; cbn; [|reflexivity].
  destruct (Z.ltb_spec x now'); [discriminate|]. intros _.
  destruct (Z.ltb_spec x now); [lia | reflexivity].
Qed.

(** X18.  On a fixed store and for [now <= now']: an EXPIRED verdict at
    [now] is the verdict at [now'] too, and a VALID or INVALID verdict at
    [now'] is the verdict at [now].  The chain walk does not read the time
    of the check. *)
Theorem verify_over_time (db : Db.t) (wall : Z) (g : NostrEvent.t) (now now' : Z) :
  now <= now' ->
  (forall e, CredentialVerifier.verify db wall g now = Some (EXPIRED e) ->
             CredentialVerifier.verify db wall g now' = Some (EXPIRED e))
  /\ (forall n, CredentialVerifier.verify db wall g now' = Some (VALID n) ->
                CredentialVerifier.verify db wall g now = Some (VALID n))
  /\ (forall why, CredentialVerifier.verify db wall g now' = Some (INVALID why) ->
                  CredentialVerifier.verify db wall g now = Some (INVALID why)).
Proof.
  intros Hle. unfold CredentialVerifier.verify, CredentialVerifier.verify_traced. cbv zeta.
  destruct (negb _); [repeat split; intros ?; cbn; congruence|].
  destruct (_ || _); [repeat split; intros ?; cbn; congruence|].
  destruct (CredentialVerifier.revoked_row _); [repeat split; intros ?; cbn; congruence|].
  match goal with
  | |- context [?eff ≫= (fun e => if e <? now then Some e else None)] =>
      pose proof (expiry_later eff now now') as Hlater;
      pose proof (expiry_earlier eff now now' Hle) as Hearlier;
      destruct (eff ≫= (fun e => if e <? now then Some e else None)) as [e0|];
      [rewrite (Hlater e0 Hle eq_refl); repeat split; intros ?; cbn; congruence|];
      clear Hlater Hearlier;
      destruct (eff ≫= (fun e => if e <? now' then Some e else None)) as [e1|]
  end.
  { split; [|split; intros ? Hx; cbn in Hx; discriminate Hx].
    intros e Hx. exfalso. revert Hx.
    destruct (CredentialVerifier.getSchema db _); [|cbn; discriminate].
    destruct (CredentialSchema.classes _ !! _); [|cbn; discriminate].
    destruct (parseATag _); [|cbn; discriminate].
    destruct (_ && _); [cbn; discriminate|].
    destruct (JS.falsy _); [cbn; discriminate|].
    destruct (CredentialVerifier.verifyChain_traced _ _ _ _ _ _ _ _ _ _ _)
      as [[r l]|] eqn:Hw; cbn; [|discriminate].
    apply verifyChain_rec_status in Hw as [[? ->]|[? ->]]; discriminate. }
  destruct (CredentialVerifier.getSchema db _); [|repeat split; intros ?; cbn; congruence].
  destruct (CredentialSchema.classes _ !! _); [|repeat split; intros ?; cbn; congruence].
  destruct (parseATag _); [|repeat split; intros ?; cbn; congruence].
  destruct (_ && _); [repeat split; intros ?; cbn; congruence|].
  destruct (JS.falsy _); [repeat split; intros ?; cbn; congruence|].
  rewrite (verifyChain_traced_now _ _ _ _ _ _ _ _ _ now now').
  repeat split; intros ?; congruence.
Qed.

End AdmissionResults.

(** X16 at the sample director grant, from right to left. *)
Lemma validateCredentialGrant_spec_witness :
  Validation.valid
    (validateCredentialGrant (rt := Sample.runtime) Example.with_schema Sample.director_grant)
  = true.
Proof.
  apply (proj2 (validateCredentialGrant_spec (rt := Sample.runtime) Example.with_schema
                  Sample.director_grant)).
  exists Sample.cached_ref, "director", Sample.dana, "1000", "2000", "dir-2", Sample.schema,
    (CredentialClass.mk "Director" None ["instructor"] ["root"]
       (CredentialClass.mkExpiry None false) false).
  repeat (split; [first [split; [reflexivity | vm_compute; discriminate]
                        | vm_compute; reflexivity]|]).
  right. split; [discriminate|]. exists 2000, 1000.
  split; [reflexivity|]. split; [reflexivity|]. intros days H. discriminate H.
Defined.

(** X17 at erin's instructor grant, issued by dana under her director
    grant. *)
Lemma verify_valid_is_authorised_witness :
  let db := saveEvents Db.empty
              [Sample.schema_event; Sample.lapsed_director; Sample.instructor_grant] in
  let log := [Lookup.mk (Some 100) (Some Sample.lapsed_director)] in
  CredentialVerifier.verify_traced (rt := Sample.runtime) db 0 Sample.instructor_grant 150
    = Some (VALID 1, log)
  /\ exists a c schema classDef info,
       getTagValue Sample.instructor_grant "a" = Some a
       /\ getTagValue Sample.instructor_grant "class" = Some c
       /\ CredentialVerifier.getSchema (rt := Sample.runtime) db a = Some schema
       /\ CredentialSchema.classes schema !! c = Some classDef
       /\ parseATag a = Some info
       /\ Z.of_nat (length log) = 1
       /\ Forall (fun U => exists row, row ∈ Db.events db /\ U = row_event row
                                       /\ EventRow.kind row = EVENT_KINDS.CREDENTIAL_GRANT)
            [Sample.lapsed_director]
       /\ authorised schema (ATag.pubkey info) (NostrEvent.pubkey Sample.instructor_grant) c
            (CredentialClass.issued_by classDef) [Sample.lapsed_director].
Proof.
  intros db log.
  assert (CredentialVerifier.verify_traced (rt := Sample.runtime) db 0
            Sample.instructor_grant 150 = Some (VALID 1, log)) as Hrun
    by (vm_compute; reflexivity).
  split; [exact Hrun|].
  exact (verify_valid_is_authorised (rt := Sample.runtime) db 0 Sample.instructor_grant
           150 1 log Hrun).
Defined.

(** X18 at the sample director grant, which expires at 2000. *)
Lemma verify_over_time_witness :
  let db := saveEvents Db.empty [Sample.schema_event; Sample.director_grant] in
  CredentialVerifier.verify (rt := Sample.runtime) db 0 Sample.director_grant 2500
    = Some (EXPIRED 2000)
  /\ CredentialVerifier.verify (rt := Sample.runtime) db 0 Sample.director_grant 3000
     = Some (EXPIRED 2000).
Proof.
  intros db.
  assert (CredentialVerifier.verify (rt := Sample.runtime) db 0 Sample.director_grant 2500
          = Some (EXPIRED 2000)) as H by (vm_compute; reflexivity).
  assert (2500 <= 3000) as Hle by lia.
  split; [exact H|].
  exact (proj1 (verify_over_time (rt := Sample.runtime) db 0 Sample.director_grant
                  2500 3000 Hle) 2000 H).
Defined.

(** *** The relay front-end *)

Lemma index_event_fails_on_grants d ev :
  fst (index_event d ev) = false ->
  NostrEvent.kind ev = EVENT_KINDS.CREDENTIAL_GRANT.
Proof.
  unfold index_event.
  destruct (Z.eqb_spec (NostrEvent.kind ev) EVENT_KINDS.CREDENTIAL_GRANT) as [Hk|Hk];
    [intros _; exact Hk | cbn; discriminate].
Qed.

Lemma saveEvent_keeps_other_authors db ev row :
  row ∈ Db.events db ->
  EventRow.pubkey row <> NostrEvent.pubkey ev ->
  row ∈ Db.events (snd (saveEvent db ev)).
Proof.
  intros Hin Hpk. rewrite saveEvent_events. apply insert_or_ignore_event_keeps.
  apply supersede_elem. split; [exact Hin|]. intros _ Hsame. contradiction.
Qed.

Lemma deletions_elem pubkey (tags : list (list string)) : forall db row,
  row ∈ Db.events
          (foldl (fun d (tag : list string) =>
                    if JS.falsy (tag !! 1%nat) then d
                    else snd (deleteEvent d (default EmptyString (tag !! 1%nat)) pubkey))
             db tags)
  <-> row ∈ Db.events db
      /\ ~ (EventRow.pubkey row = pubkey
            /\ EventRow.id row <> EmptyString
            /\ exists tag, tag ∈ tags /\ tag !! 1%nat = Some (EventRow.id row)).
Proof.
  induction tags as [|tag tags IH]; intros db row; cbn [foldl].
  - split; [intros H; split; [exact H|] | tauto].
    intros (_ & _ & tag & Htag & _). apply elem_of_nil in Htag. exact Htag.
  - rewrite IH. clear IH.
    assert (forall P : list string -> Prop,
              (exists t, t ∈ tag :: tags /\ P t) <-> P tag \/ exists t, t ∈ tags /\ P t) as Hex.
    { intros P. split.
      - intros (t & Ht & HP). apply elem_of_cons in Ht as [->|Ht]; eauto.
      - intros [HP | (t & Ht & HP)]; [exists tag | exists t]; (split; [|exact HP]);
          apply elem_of_cons; auto. }
    rewrite Hex. clear Hex.
    destruct (tag !! 1%nat) as [[|c s]|] eqn:Htag; cbn [JS.falsy].
    + split; intros [Hin Hno]; (split; [exact Hin|]); intros (Hp & Hid & Hr);
        apply Hno; (split; [exact Hp|]); (split; [exact Hid|]).
      * destruct Hr as [Hr|Hr]; [congruence | exact Hr].
      * right. exact Hr.
    + cbn [deleteEvent snd default]. unfold id. rewrite delete_events_elem.
      rewrite andb_false_iff, !bool_decide_eq_false.
      split.
      * intros [[Hin Hne] Hno]. split; [exact Hin|]. intros (Hp & Hid & [Hr|Hr]).
        -- injection Hr as Hr. destruct Hne as [Hne|Hne]; congruence.
        -- apply Hno. auto.
      * intros [Hin Hno]. split; [split; [exact Hin|]|].
        -- destruct (decide (EventRow.id row = String c s)) as [Heq|Hne]; [|left; exact Hne].
           right. intros Hp. apply Hno. split; [exact Hp|]. split; [congruence|].
           left. congruence.
        -- intros (Hp & Hid & Hr). apply Hno. auto.
    + split; intros [Hin Hno]; (split; [exact Hin|]); intros (Hp & Hid & Hr);
        apply Hno; (split; [exact Hp|]); (split; [exact Hid|]).
      * destruct Hr as [Hr|Hr]; [congruence | exact Hr].
      * right. exact Hr.
Qed.

Section RelayResults.
Context {rt : Runtime}.
Variable validateSchema : NostrEvent.t -> Validation.t.

Lemma handleDeletion_elem db ev row :
  row ∈ Db.events (handleDeletion db ev)
  <-> row ∈ Db.events db /\ ~ deletes (NostrEvent.pubkey ev) (NostrEvent.tags ev) row.
Proof.
  unfold handleDeletion. rewrite deletions_elem. unfold deletes.
  split; intros [Hin Hno]; (split; [exact Hin|]); intros (Hp & Hid & tag & Htag & Hr);
    apply Hno; (split; [exact Hp|]); (split; [exact Hid|]).
  - destruct Hr as [He Hr]. exists tag. split; [|exact Hr].
    apply list_elem_of_In, filter_In. split; [apply list_elem_of_In, Htag|].
    apply bool_decide_eq_true, He.
  - apply list_elem_of_In, filter_In in Htag as [Htag He].
    apply bool_decide_eq_true in He. exists tag. split; [apply list_elem_of_In, Htag|]. auto.
Qed.

(** The verdict of [verify] that lets [handleEvent] go on. *)
Lemma verify_gate db wall ev :
  match CredentialVerifier.verify db wall ev wall with
  | Some (VALID _) => None
  | Some other => Some (status_name other)
  | None => Some EmptyString
  end = None
  <-> exists n, CredentialVerifier.verify db wall ev wall = Some (VALID n).
Proof.
  destruct (CredentialVerifier.verify db wall ev wall) as [[n|why|e|at_ why]|];
    split; try discriminate; eauto; intros [n H]; discriminate.
Qed.

Lemma revoked_is_not_valid db wall g now n log :
  CredentialVerifier.revoked_row (getCredential db (NostrEvent.id g)) = true ->
  CredentialVerifier.verify_traced db wall g now <> Some (VALID n, log).
Proof.
  intros Hrev. unfold CredentialVerifier.verify_traced. cbv zeta. rewrite Hrev.
  destruct (negb _); [discriminate|]. destruct (_ || _); discriminate.
Qed.

(** X19.  When [handleEvent] answers OK false, the store is unchanged,
    except under the answer "error: could not save event": that answer is
    given only for a grant on which [saveEvent] returned false, and the
    event row is stored all the same. *)
Theorem handleEvent_rejected (db : Db.t) (wall : Z) (event : NostrEvent.t) :
  Ok.accepted (fst (handleEvent validateSchema db wall event)) = false ->
  snd (handleEvent validateSchema db wall event) = db
  \/ (Ok.message (fst (handleEvent validateSchema db wall event))
      = "error: could not save event"
      /\ NostrEvent.kind event = EVENT_KINDS.CREDENTIAL_GRANT
      /\ fst (saveEvent db event) = false
      /\ snd (handleEvent validateSchema db wall event) = snd (saveEvent db event)
      /\ exists row, row ∈ Db.events (snd (handleEvent validateSchema db wall event))
                     /\ EventRow.id row = NostrEvent.id event).
Proof.
  unfold handleEvent. cbv zeta.
  destruct (negb (Validation.valid (validateEvent (event_raw event))));
    [left; reflexivity|].
  destruct ((NostrEvent.kind event =? EVENT_KINDS.CREDENTIAL_SCHEMA)
            && negb (Validation.valid (validateSchema event))); [left; reflexivity|].
  destruct ((NostrEvent.kind event =? EVENT_KINDS.CREDENTIAL_GRANT)
            && negb (Validation.valid (validateCredentialGrant db event)));
    [left; reflexivity|].
  destruct (if NostrEvent.kind event =? EVENT_KINDS.CREDENTIAL_GRANT then _ else None);
    [left; reflexivity|].
  destruct (fst (saveEvent _ event)) eqn:Hsaved; cbn [fst snd Ok.accepted Ok.message];
    [discriminate|].
  intros _. right.
  assert (NostrEvent.kind event = EVENT_KINDS.CREDENTIAL_GRANT) as Hkind
    by (rewrite saveEvent_steps in Hsaved; apply index_event_fails_on_grants in Hsaved;
        exact Hsaved).
  rewrite Hkind in Hsaved |- *.
  change (EVENT_KINDS.CREDENTIAL_GRANT =? 5) with false in Hsaved |- *. cbv iota in Hsaved |- *.
  repeat split; try assumption. apply saveEvent_stores.
Qed.

(** X20.  When [handleEvent] answers OK true, the message is empty,
    [validateEvent] passed, a schema event passed [validateSchema], a
    grant passed [validateCredentialGrant] and [verify] returned VALID on
    the store before the event, where its index row, if any, was not
    flagged revoked; and a row with the id of the event is stored. *)
Theorem handleEvent_accepted (db : Db.t) (wall : Z) (event : NostrEvent.t) :
  Ok.accepted (fst (handleEvent validateSchema db wall event)) = true ->
  Validation.valid (validateEvent (event_raw event)) = true
  /\ (NostrEvent.kind event = EVENT_KINDS.CREDENTIAL_SCHEMA ->
      Validation.valid (validateSchema event) = true)
  /\ (NostrEvent.kind event = EVENT_KINDS.CREDENTIAL_GRANT ->
      Validation.valid (validateCredentialGrant db event) = true
      /\ (exists n, CredentialVerifier.verify db wall event wall = Some (VALID n))
      /\ CredentialVerifier.revoked_row (getCredential db (NostrEvent.id event)) = false)
  /\ Ok.message (fst (handleEvent validateSchema db wall event)) = EmptyString
  /\ exists row, row ∈ Db.events (snd (handleEvent validateSchema db wall event))
                 /\ EventRow.id row = NostrEvent.id event.
Proof.
  unfold handleEvent. cbv zeta.
  destruct (Validation.valid (validateEvent (event_raw event))); cbn [negb];
    [|cbn; discriminate].
  destruct ((NostrEvent.kind event =? EVENT_KINDS.CREDENTIAL_SCHEMA)
            && negb (Validation.valid (validateSchema event))) eqn:Hschema;
    [cbn; discriminate|].
  destruct ((NostrEvent.kind event =? EVENT_KINDS.CREDENTIAL_GRANT)
            && negb (Validation.valid (validateCredentialGrant db event))) eqn:Hgrant;
    [cbn; discriminate|].
  destruct (if NostrEvent.kind event =? EVENT_KINDS.CREDENTIAL_GRANT then _ else None)
    eqn:Hverify; [cbn; discriminate|].
  destruct (fst (saveEvent _ event)); cbn [fst snd Ok.accepted Ok.message];
    [|discriminate].
  intros _. split; [reflexivity|]. split; [|split; [|split; [reflexivity|]]].
  - intros Hk. rewrite Hk in Hschema.
    change (EVENT_KINDS.CREDENTIAL_SCHEMA =? EVENT_KINDS.CREDENTIAL_SCHEMA) with true in Hschema.
    cbn [andb] in Hschema. apply negb_false_iff in Hschema. exact Hschema.
  - intros Hk. rewrite Hk in Hgrant, Hverify.
    change (EVENT_KINDS.CREDENTIAL_GRANT =? EVENT_KINDS.CREDENTIAL_GRANT) with true
      in Hgrant, Hverify.
    cbn [andb] in Hgrant. apply negb_false_iff in Hgrant. split; [exact Hgrant|].
    apply verify_gate in Hverify. split; [exact Hverify|].
    destruct Hverify as [n Hn]. unfold CredentialVerifier.verify in Hn.
    destruct (CredentialVerifier.verify_traced db wall event wall) as [[r log]|] eqn:Ht;
      [|discriminate]. cbn in Hn. injection Hn as ->.
    destruct (CredentialVerifier.revoked_row _) eqn:Hrev; [|reflexivity].
    exfalso. exact (revoked_is_not_valid db wall event wall n log Hrev Ht).
  - apply saveEvent_stores.
Qed.

(** X21.  A grant whose index row is flagged revoked is not let in again:
    [handleEvent] answers OK false and leaves the store, the flag
    included, as it was. *)
Theorem handleEvent_rejects_revoked_grant (db : Db.t) (wall : Z) (event : NostrEvent.t) :
  NostrEvent.kind event = EVENT_KINDS.CREDENTIAL_GRANT ->
  CredentialVerifier.revoked_row (getCredential db (NostrEvent.id event)) = true ->
  Ok.accepted (fst (handleEvent validateSchema db wall event)) = false
  /\ snd (handleEvent validateSchema db wall event) = db.
Proof.
  intros Hkind Hrev. unfold handleEvent. cbv zeta.
  destruct (negb (Validation.valid (validateEvent (event_raw event))));
    [split; reflexivity|].
  destruct ((NostrEvent.kind event =? EVENT_KINDS.CREDENTIAL_SCHEMA)
            && negb (Validation.valid (validateSchema event))); [split; reflexivity|].
  destruct ((NostrEvent.kind event =? EVENT_KINDS.CREDENTIAL_GRANT)
            && negb (Validation.valid (validateCredentialGrant db event)));
    [split; reflexivity|].
  rewrite Hkind.
  change (EVENT_KINDS.CREDENTIAL_GRANT =? EVENT_KINDS.CREDENTIAL_GRANT) with true.
  cbv iota.
  destruct (match CredentialVerifier.verify db wall event wall with
            | Some (VALID _) => None
            | Some other => Some (status_name other)
            | None => Some EmptyString
            end) eqn:Hverify; [split; reflexivity|].
  exfalso. apply verify_gate in Hverify as [n Hn]. unfold CredentialVerifier.verify in Hn.
  destruct (CredentialVerifier.verify_traced db wall event wall) as [[r log]|] eqn:Ht;
    [|discriminate]. cbn in Hn. injection Hn as ->.
  exact (revoked_is_not_valid db wall event wall n log Hrev Ht).
Qed.

(** X22.  [handleEvent] never removes an event row of another author:
    neither the deletions of a kind 5 event nor the replacement of older
    versions in [saveEvent] touch a row whose pubkey differs from the
    pubkey of the event. *)
Theorem handleEvent_keeps_other_authors (db : Db.t) (wall : Z) (event : NostrEvent.t)
    (row : EventRow.t) :
  row ∈ Db.events db ->
  EventRow.pubkey row <> NostrEvent.pubkey event ->
  row ∈ Db.events (snd (handleEvent validateSchema db wall event)).
Proof.
  intros Hin Hpk. unfold handleEvent. cbv zeta.
  destruct (negb (Validation.valid (validateEvent (event_raw event)))); [exact Hin|].
  destruct ((NostrEvent.kind event =? EVENT_KINDS.CREDENTIAL_SCHEMA)
            && negb (Validation.valid (validateSchema event))); [exact Hin|].
  destruct ((NostrEvent.kind event =? EVENT_KINDS.CREDENTIAL_GRANT)
            && negb (Validation.valid (validateCredentialGrant db event))); [exact Hin|].
  destruct (if NostrEvent.kind event =? EVENT_KINDS.CREDENTIAL_GRANT then _ else None);
    [exact Hin|].
  assert (row ∈ Db.events (if NostrEvent.kind event =? 5
                           then handleDeletion db event else db)) as Hin1.
  { destruct (NostrEvent.kind event =? 5); [|exact Hin].
    apply handleDeletion_elem. split; [exact Hin|]. intros (Hsame & _). contradiction. }
  destruct (fst (saveEvent _ event)); cbn [snd];
    apply saveEvent_keeps_other_authors; assumption.
Qed.

(** X23.  A kind 5 event that passes [validateEvent] is accepted.  Of the
    rows stored before, other than a row under the id of the event itself,
    exactly those stay that are not both written by the author of the
    event and named, by an id that is not empty, in one of its [e] tags;
    and no row but the row of the event is added. *)
Theorem handleEvent_deletion (db : Db.t) (wall : Z) (event : NostrEvent.t) :
  NostrEvent.kind event = EVENT_KINDS.DELETE ->
  Validation.valid (validateEvent (event_raw event)) = true ->
  Ok.accepted (fst (handleEvent validateSchema db wall event)) = true
  /\ (forall row, row ∈ Db.events db ->
        EventRow.id row <> NostrEvent.id event ->
        (row ∈ Db.events (snd (handleEvent validateSchema db wall event))
         <-> ~ deletes (NostrEvent.pubkey event) (NostrEvent.tags event) row))
  /\ (forall row, row ∈ Db.events (snd (handleEvent validateSchema db wall event)) ->
        row ∈ Db.events db \/ row = event_row event).
Proof.
  intros Hkind Hvalid. unfold handleEvent. cbv zeta.
  rewrite Hvalid, Hkind.
  change (EVENT_KINDS.DELETE =? EVENT_KINDS.CREDENTIAL_SCHEMA) with false.
  change (EVENT_KINDS.DELETE =? EVENT_KINDS.CREDENTIAL_GRANT) with false.
  change (EVENT_KINDS.DELETE =? 5) with true.
  cbn [negb andb]. cbv iota.
  assert (forall d, saveEvent d event = (true, insert_or_ignore_event (event_row event) d))
    as Hsave.
  { intros d. rewrite saveEvent_steps. unfold index_event, supersede. rewrite Hkind.
    cbn [isReplaceable isParameterizedReplaceable EVENT_KINDS.DELETE Z.eqb Z.leb Z.ltb
         Z.compare Pos.compare Pos.compare_cont orb andb Pos.eqb].
    change (5 =? EVENT_KINDS.CREDENTIAL_GRANT) with false.
    change (5 =? EVENT_KINDS.CREDENTIAL_SCHEMA) with false.
    change (5 =? EVENT_KINDS.CREDENTIAL_REVOCATION) with false.
    change (5 =? EVENT_KINDS.CREDENTIAL_RENEWAL) with false.
    destruct (getTagValue event "d"); reflexivity. }
  rewrite Hsave. cbn [fst snd Ok.accepted]. split; [reflexivity|]. split.
  - intros row Hin Hid. split.
    + intros Hrow. apply insert_or_ignore_event_elem in Hrow as [Hrow| ->].
      * apply handleDeletion_elem in Hrow as [_ Hno]. exact Hno.
      * exfalso. apply Hid. reflexivity.
    + intros Hno. apply insert_or_ignore_event_keeps, handleDeletion_elem. auto.
  - intros row Hrow. apply insert_or_ignore_event_elem in Hrow as [Hrow| ->]; [|auto].
    left. apply handleDeletion_elem in Hrow as [Hin _]. exact Hin.
Qed.

End RelayResults.

(** X19 at a perpetual director grant whose [issued] tag is not a number:
    it passes admission and verification, the index insert fails, the
    relay answers "error: could not save event". *)
Lemma handleEvent_rejected_witness :
  let r := handleEvent (rt := Sample.runtime) Example.any_schema Example.with_schema 1500
             Example.undated_director in
  Ok.accepted (fst r) = false
  /\ Ok.message (fst r) = "error: could not save event"
  /\ (snd r = Example.with_schema
      \/ (Ok.message (fst r) = "error: could not save event"
          /\ NostrEvent.kind Example.undated_director = EVENT_KINDS.CREDENTIAL_GRANT
          /\ fst (saveEvent Example.with_schema Example.undated_director) = false
          /\ snd r = snd (saveEvent Example.with_schema Example.undated_director)
          /\ exists row, row ∈ Db.events (snd r)
                         /\ EventRow.id row = NostrEvent.id Example.undated_director)).
Proof.
  intros r.
  assert (Ok.accepted (fst r) = false) as H by (vm_compute; reflexivity).
  split; [exact H|]. split; [vm_compute; reflexivity|].
  exact (handleEvent_rejected (rt := Sample.runtime) Example.any_schema Example.with_schema
           1500 Example.undated_director H).
Defined.

(** X20 at the director grant, submitted at time 1500. *)
Lemma handleEvent_accepted_witness :
  let r := handleEvent (rt := Sample.runtime) Example.any_schema Example.with_schema 1500
             Example.director in
  Ok.accepted (fst r) = true
  /\ (NostrEvent.kind Example.director = EVENT_KINDS.CREDENTIAL_GRANT ->
      Validation.valid
        (validateCredentialGrant (rt := Sample.runtime) Example.with_schema Example.director)
      = true
      /\ (exists n, CredentialVerifier.verify (rt := Sample.runtime) Example.with_schema 1500
                      Example.director 1500 = Some (VALID n))
      /\ CredentialVerifier.revoked_row
           (getCredential Example.with_schema (NostrEvent.id Example.director)) = false).
Proof.
  intros r.
  assert (Ok.accepted (fst r) = true) as H by (vm_compute; reflexivity).
  split; [exact H|].
  exact (proj1 (proj2 (proj2
           (handleEvent_accepted (rt := Sample.runtime) Example.any_schema
              Example.with_schema 1500 Example.director H)))).
Defined.

(** X21 at the director grant after its revocation. *)
Lemma handleEvent_rejects_revoked_grant_witness :
  let r := handleEvent (rt := Sample.runtime) Example.any_schema
             Example.with_revoked_director 1500 Example.director in
  CredentialVerifier.revoked_row
    (getCredential Example.with_revoked_director (NostrEvent.id Example.director)) = true
  /\ Ok.accepted (fst r) = false
  /\ snd r = Example.with_revoked_director.
Proof.
  intros r.
  assert (CredentialVerifier.revoked_row
            (getCredential Example.with_revoked_director (NostrEvent.id Example.director))
          = true) as H by (vm_compute; reflexivity).
  split; [exact H|].
  exact (handleEvent_rejects_revoked_grant (rt := Sample.runtime) Example.any_schema
           Example.with_revoked_director 1500 Example.director eq_refl H).
Defined.

(** X22 at dana's request to delete a note of erin's. *)
Lemma handleEvent_keeps_other_authors_witness :
  let row := event_row (Example.note (Sample.key "3") Sample.erin) in
  row ∈ Db.events Example.with_notes
  /\ row ∈ Db.events
             (snd (handleEvent (rt := Sample.runtime) Example.any_schema Example.with_notes
                     1500 Example.deletion)).
Proof.
  intros row.
  assert (row ∈ Db.events Example.with_notes) as Hin
    by (apply list_elem_of_In; vm_compute; right; left; reflexivity).
  assert (EventRow.pubkey row <> NostrEvent.pubkey Example.deletion) as Hpk
    by (vm_compute; discriminate).
  split; [exact Hin|].
  exact (handleEvent_keeps_other_authors (rt := Sample.runtime) Example.any_schema
           Example.with_notes 1500 Example.deletion row Hin Hpk).
Defined.

(** X23 at dana's request to delete her note and a note of erin's. *)
Lemma handleEvent_deletion_witness :
  let r := handleEvent (rt := Sample.runtime) Example.any_schema Example.with_notes 1500
             Example.deletion in
  Ok.accepted (fst r) = true
  /\ forall row, row ∈ Db.events (snd r) ->
                 row ∈ Db.events Example.with_notes \/ row = event_row Example.deletion.
Proof.
  intros r.
  assert (Validation.valid (validateEvent (rt := Sample.runtime) (event_raw Example.deletion))
          = true) as H by (vm_compute; reflexivity).
  pose proof (handleEvent_deletion (rt := Sample.runtime) Example.any_schema
                Example.with_notes 1500 Example.deletion eq_refl H) as (Hok & _ & Hrows).
  split; [exact Hok | exact Hrows].
Defined.
